(** * The tiny pool allocator of tbox (src/memory/tpool.c)

    A shallow embedding of the bitmap allocator: the pool header, the two
    bitmap arrays and the data region, with [tb_tpool_init],
    [tb_tpool_clear], [tb_tpool_exit], [tb_tpool_malloc] (and its search
    [tb_tpool_malloc_find]) and [tb_tpool_free] written as functions on an
    explicit pool state. *)

From Stdlib Require Import ZArith Lia Bool.
From stdpp Require Import base list.

Local Open Scope Z_scope.

(** ** Build configuration

    The source is compiled for a 32 or a 64 bit CPU ([TB_CPU_BITBYTE] is 4
    or 8) and with or without [TB_DEBUG].  C leaves [x << n] undefined when
    [n] reaches the width of [x]; the two behaviours of actual hardware are
    both modelled: the shift count is taken modulo the width (x86, x86-64,
    AArch64, MIPS), or the bits shifted out are lost and the result is 0
    (ARM32, PowerPC). *)

Inductive cpu_width := Cpu32 | Cpu64.

Inductive wide_shift := CountModWidth | BitsShiftedOut.

Record platform := Platform
  { cpu_bits : cpu_width;
    shift_rule : wide_shift;
    TB_DEBUG : bool }.

(** The diagnostics, [tb_tpool_info_t]. *)
Record tb_tpool_info_t := Info
  { info_used : Z;
    info_peak : Z;
    info_need : Z;
    info_real : Z;
    info_fail : Z;
    info_pred : Z;
    info_aloc : Z }.

(** The pool, [tb_tpool_t], together with the memory its three pointers
    refer to: [head_words] and [body_words] are the [maxn] words at [head]
    and [body], [data_bytes] the bytes at [data]. *)
Record tb_tpool_t := Pool
  { tpool_magic : Z;
    tpool_align : Z;
    tpool_step : Z;
    tpool_full : Z;
    tpool_head : Z;
    tpool_body : Z;
    tpool_maxn : Z;
    tpool_pred : Z;
    tpool_data : Z;
    tpool_info : tb_tpool_info_t;
    head_words : list Z;
    body_words : list Z;
    data_bytes : list Z }.

Definition TB_NULL : Z := 0.

Definition TB_TPOOL_MAGIC : Z := 0xdead.

Definition TB_TPOOL_ALIGN_MAXN : Z := 64.

Definition info_zero : tb_tpool_info_t := Info 0 0 0 0 0 0 0.

Definition set_full (v : Z) (p : tb_tpool_t) : tb_tpool_t :=
  Pool (tpool_magic p) (tpool_align p) (tpool_step p) v (tpool_head p)
       (tpool_body p) (tpool_maxn p) (tpool_pred p) (tpool_data p)
       (tpool_info p) (head_words p) (body_words p) (data_bytes p).

Definition set_info (v : tb_tpool_info_t) (p : tb_tpool_t) : tb_tpool_t :=
  Pool (tpool_magic p) (tpool_align p) (tpool_step p) (tpool_full p)
       (tpool_head p) (tpool_body p) (tpool_maxn p) (tpool_pred p)
       (tpool_data p) v (head_words p) (body_words p) (data_bytes p).

Definition set_bitmaps (hw bw : list Z) (p : tb_tpool_t) : tb_tpool_t :=
  Pool (tpool_magic p) (tpool_align p) (tpool_step p) (tpool_full p)
       (tpool_head p) (tpool_body p) (tpool_maxn p) (tpool_pred p)
       (tpool_data p) (tpool_info p) hw bw (data_bytes p).

(** [tb_memset (p, 0, n)] on the first [n] cells of a region. *)
Definition memset0 (n : Z) (l : list Z) : list Z :=
  replicate (Nat.min (Z.to_nat n) (length l)) 0 ++ drop (Z.to_nat n) l.

(** Modelled from the spec: the macro [tb_align (x, b)] is declared in a
    header that is not part of the sources; the spec uses it as "the next
    address aligned to [b]" and, divided by the step, as [ceilDiv]. *)
Definition tb_align (x b : Z) : Z := (x + (b - 1)) / b * b.

(** Modelled from the spec: the macro [tb_align_pow2 (x)] is declared in a
    header that is not part of the sources; the spec calls it
    [roundUpToPowerOfTwo]. *)
Definition tb_align_pow2 (x : Z) : Z := 2 ^ Z.log2_up x.

(** Modelled from the spec: the macro [tb_max (a, b)] is declared in a
    header that is not part of the sources; the spec writes [max]. *)
Definition tb_max (a b : Z) : Z := if a >? b then a else b.

(** A bit-field of [n] bits keeps the low [n] bits of what is stored. *)
Definition bitfield (n x : Z) : Z := x mod 2 ^ n.

Section Tpool.

Variable cfg : platform.

Definition TB_CPU_BITBYTE : Z :=
  match cpu_bits cfg with Cpu32 => 4 | Cpu64 => 8 end.

Definition TB_TPOOL_BLOCK_MAXN : Z :=
  match cpu_bits cfg with Cpu32 => 32 | Cpu64 => 64 end.

(** [sizeof (tb_size_t)]. *)
Definition sizeof_size_t : Z := TB_CPU_BITBYTE.

(** [sizeof (tb_tpool_t)]: the word of bit-fields, [head], [body], [maxn],
    [pred], [data], and the seven counters of [info] in a debug build. *)
Definition sizeof_tpool : Z :=
  (if TB_DEBUG cfg then 13 else 6) * sizeof_size_t.

(** Arithmetic of [tb_size_t]. *)
Definition wrap (x : Z) : Z := x mod 2 ^ TB_TPOOL_BLOCK_MAXN.

Definition shift_count (n : Z) : Z :=
  match shift_rule cfg with
  | CountModWidth => n mod TB_TPOOL_BLOCK_MAXN
  | BitsShiftedOut => n
  end.

Definition shl (x n : Z) : Z := wrap (Z.shiftl x (shift_count n)).

Definition shr (x n : Z) : Z := Z.shiftr x (shift_count n).

Definition wnot (x : Z) : Z := wrap (Z.lnot x).

(** ** The search, [tb_tpool_malloc_find] *)

(** [while (p < e && !( *p + 1)) p++;] over the [maxn] words at [body]:
    the number of leading words that are all ones. *)
Fixpoint find_chunk (ws : list Z) : nat :=
  match ws with
  | [] => O
  | w :: ws' => if wrap (w + 1) =? 0 then S (find_chunk ws') else O
  end.

(** [((blks >> n) & bits) == bits] *)
Definition probe (blks bits n : Z) : bool :=
  Z.land (shr blks n) bits =? bits.

(** The unrolled loop over [blki]; each turn probes eight offsets, lowest
    first, and leaves the loop at the first that fits. *)
Fixpoint find_blki (fuel : nat) (blks bits blki : Z) : Z :=
  match fuel with
  | O => blki
  | S fuel' =>
      if blki <? TB_TPOOL_BLOCK_MAXN then
        if probe blks bits (blki + 0) then blki + 0
        else if probe blks bits (blki + 1) then blki + 1
        else if probe blks bits (blki + 2) then blki + 2
        else if probe blks bits (blki + 3) then blki + 3
        else if probe blks bits (blki + 4) then blki + 4
        else if probe blks bits (blki + 5) then blki + 5
        else if probe blks bits (blki + 6) then blki + 6
        else if probe blks bits (blki + 7) then blki + 7
        else find_blki fuel' blks bits (blki + 8)
      else blki
  end.

Definition tb_tpool_malloc_find (tpool : tb_tpool_t) (size : Z)
  : tb_tpool_t * Z :=
  let maxn := tpool_maxn tpool in
  (* find the free chunk *)
  let i := find_chunk (take (Z.to_nat maxn) (body_words tpool)) in
  if negb (Z.of_nat i <? maxn) then (tpool, TB_NULL) else
  let body := body_words tpool !!! i in
  let head := head_words tpool !!! i in
  (* the free block bit in the chunk *)
  let bitn := tb_align size (tpool_step tpool) / tpool_step tpool in
  let bits := wrap (shl 1 bitn - 1) in
  if negb (negb (bitn =? 0) && (bitn <=? TB_TPOOL_BLOCK_MAXN))
  then (tpool, TB_NULL) else
  (* find the free bit index *)
  let blkn := TB_TPOOL_BLOCK_MAXN in
  let blks := wnot body in
  let blki := find_blki (Z.to_nat TB_TPOOL_BLOCK_MAXN) blks bits 0 in
  (* no space? *)
  if blkn =? 0 then (tpool, TB_NULL) else
  (* alloc it *)
  let data :=
    tpool_data tpool
    + wrap ((Z.of_nat i * TB_TPOOL_BLOCK_MAXN + blki) * tpool_step tpool) in
  let body' := Z.lor body (shl bits blki) in
  let head' := Z.lor head (shl 1 blki) in
  (set_bitmaps (<[i := head']> (head_words tpool))
               (<[i := body']> (body_words tpool)) tpool,
   data).

(** ** The interface *)

Definition tb_tpool_init (data size align : Z) : option tb_tpool_t :=
  if (data =? 0) || (size =? 0) then None else
  (* align *)
  let align := if align =? 0 then TB_CPU_BITBYTE else tb_align_pow2 align in
  let align := tb_max align TB_CPU_BITBYTE in
  if negb (align <=? TB_TPOOL_ALIGN_MAXN) then None else
  (* align data *)
  let byte := tb_align data align - data in
  if negb (size >=? byte) then None else
  let size := size - byte in
  let data := data + byte in
  if size =? 0 then None else
  (* init tpool *)
  let t_align := bitfield 7 align in
  let t_step := bitfield 7 (tb_max t_align 16) in
  (* init head *)
  let head := tb_align (data + sizeof_tpool) t_align in
  if negb (data + size >? head) then None else
  if negb (Z.land head (TB_CPU_BITBYTE - 1) =? 0) then None else
  (* init maxn *)
  let maxn :=
    (data + size - head)
    / ((1 + Z.shiftl t_step 2) * Z.shiftl sizeof_size_t 1) in
  if maxn =? 0 then None else
  (* init body *)
  let body := head + maxn * sizeof_size_t in
  if negb (data + size >? body) then None else
  if negb (Z.land body (TB_CPU_BITBYTE - 1) =? 0) then None else
  (* init data *)
  let pdata := tb_align (body + maxn * sizeof_size_t) t_align in
  if negb (data + size >? pdata) then None else
  if negb (wrap (wrap (maxn * t_step) * TB_TPOOL_BLOCK_MAXN)
           <=? data + size - pdata) then None else
  Some (Pool (bitfield 16 TB_TPOOL_MAGIC) t_align t_step 0 head body maxn 0
             pdata info_zero
             (replicate (Z.to_nat maxn) 0)
             (replicate (Z.to_nat maxn) 0)
             (replicate (Z.to_nat (maxn * t_step * TB_TPOOL_BLOCK_MAXN)) 0)).

Definition tb_tpool_clear (tpool : tb_tpool_t) : tb_tpool_t :=
  if negb (tpool_magic tpool =? TB_TPOOL_MAGIC) then tpool else
  let n := tpool_maxn tpool in
  (* clear data *)
  let d :=
    if tpool_data tpool =? 0 then data_bytes tpool
    else memset0 (wrap (wrap (n * tpool_step tpool) * TB_TPOOL_BLOCK_MAXN))
                 (data_bytes tpool) in
  (* clear head *)
  let h :=
    if tpool_head tpool =? 0 then head_words tpool
    else memset0 n (head_words tpool) in
  (* clear body *)
  let b :=
    if tpool_body tpool =? 0 then body_words tpool
    else memset0 n (body_words tpool) in
  Pool (tpool_magic tpool) (tpool_align tpool) (tpool_step tpool) 0
       (tpool_head tpool) (tpool_body tpool) (tpool_maxn tpool) 0
       (tpool_data tpool)
       (if TB_DEBUG cfg then info_zero else tpool_info tpool) h b d.

Definition tb_tpool_exit (tpool : tb_tpool_t) : tb_tpool_t :=
  if negb (tpool_magic tpool =? TB_TPOOL_MAGIC) then tpool else
  let c := tb_tpool_clear tpool in
  Pool 0 0 0 0 0 0 0 0 0 info_zero
       (head_words c) (body_words c) (data_bytes c).

Definition tb_tpool_malloc (tpool : tb_tpool_t) (size : Z)
  : tb_tpool_t * Z :=
  if negb (tpool_magic tpool =? TB_TPOOL_MAGIC) then (tpool, TB_NULL) else
  (* no size? *)
  if size =? 0 then (tpool, TB_NULL) else
  (* too large? *)
  if negb (size <=? wrap (tpool_step tpool * TB_TPOOL_BLOCK_MAXN))
  then (tpool, TB_NULL) else
  (* full? *)
  if negb (tpool_full tpool =? 0) then (tpool, TB_NULL) else
  (* find the free block *)
  let '(tpool, data) := tb_tpool_malloc_find tpool size in
  (* update info *)
  let tpool :=
    if TB_DEBUG cfg then
      let i := tpool_info tpool in
      let i :=
        if negb (data =? 0) then
          let used := wrap (info_used i + tb_align size (tpool_step tpool)) in
          Info used
               (if used >? info_peak i then used else info_peak i)
               (wrap (info_need i + size))
               (wrap (info_real i + tb_align size (tpool_step tpool)))
               (info_fail i) (info_pred i) (info_aloc i)
        else
          Info (info_used i) (info_peak i) (info_need i) (info_real i)
               (wrap (info_fail i + 1)) (info_pred i) (info_aloc i) in
      set_info (Info (info_used i) (info_peak i) (info_need i) (info_real i)
                     (info_fail i) (info_pred i) (wrap (info_aloc i + 1)))
               tpool
    else tpool in
  (* full? *)
  let tpool := if data =? 0 then set_full 1 tpool else tpool in
  (tpool, data).

(** The remaining entry points are stubs in this snapshot. *)
Definition tb_tpool_malloc0 (tpool : tb_tpool_t) (size : Z)
  : tb_tpool_t * Z :=
  (tpool, TB_NULL).

Definition tb_tpool_nalloc (tpool : tb_tpool_t) (item size : Z)
  : tb_tpool_t * Z :=
  (tpool, TB_NULL).

Definition tb_tpool_nalloc0 (tpool : tb_tpool_t) (item size : Z)
  : tb_tpool_t * Z :=
  (tpool, TB_NULL).

Definition tb_tpool_ralloc (tpool : tb_tpool_t) (data size : Z)
  : tb_tpool_t * Z :=
  (tpool, TB_NULL).

Definition tb_tpool_free (tpool : tb_tpool_t) (data : Z)
  : tb_tpool_t * bool :=
  (tpool, true).

(** ** Sequences of calls *)

Inductive op :=
| Malloc (size : Z)
| Free (data : Z)
| Clear.

(** The allocations that are live: address and size of every block
    returned by [tb_tpool_malloc] and not passed to [tb_tpool_free] or
    dropped by [tb_tpool_clear] since. *)
Definition live_set := list (Z * Z).

Definition exec (st : tb_tpool_t * live_set) (o : op)
  : tb_tpool_t * live_set :=
  let '(tpool, live) := st in
  match o with
  | Malloc size =>
      let '(tpool', data) := tb_tpool_malloc tpool size in
      (tpool', if data =? TB_NULL then live else live ++ [(data, size)])
  | Free data =>
      (fst (tb_tpool_free tpool data),
       filter (fun a => negb (fst a =? data)) live)
  | Clear => (tb_tpool_clear tpool, [])
  end.

Definition run (ops : list op) (st : tb_tpool_t * live_set)
  : tb_tpool_t * live_set :=
  fold_left exec ops st.

(** The blocks backing an allocation: the index of its first block in the
    data region and the number of blocks. *)
Definition block_run (tpool : tb_tpool_t) (a : Z * Z) : Z * Z :=
  ((fst a - tpool_data tpool) / tpool_step tpool,
   tb_align (snd a) (tpool_step tpool) / tpool_step tpool).

Definition runs_overlap (r1 r2 : Z * Z) : bool :=
  (fst r1 <? fst r2 + snd r2) && (fst r2 <? fst r1 + snd r1).

Fixpoint live_disjoint (tpool : tb_tpool_t) (live : live_set) : bool :=
  match live with
  | [] => true
  | a :: rest =>
      forallb (fun b => negb (runs_overlap (block_run tpool a)
                                           (block_run tpool b))) rest
      && live_disjoint tpool rest
  end.

(** ** Predicates on pools *)

(** Block [b] of a chunk with body word [w] starts [k] free blocks. *)
Definition free_run (w b k : Z) : bool :=
  (b + k <=? TB_TPOOL_BLOCK_MAXN)
  && forallb (fun j => negb (Z.testbit w (b + Z.of_nat j)))
             (seq 0 (Z.to_nat k)).

(** [b] is the lowest offset at which [k] free blocks start. *)
Definition lowest_fit (w k b : Z) : Prop :=
  0 <= b /\ free_run w b k = true /\
  forall b', 0 <= b' < b -> free_run w b' k = false.

(** Chunk [c] is the first whose body word is not all ones. *)
Definition first_free_chunk (tpool : tb_tpool_t) (c : nat) : Prop :=
  (c < length (body_words tpool))%nat /\
  (forall j, (j < c)%nat ->
             body_words tpool !!! j = 2 ^ TB_TPOOL_BLOCK_MAXN - 1) /\
  body_words tpool !!! c <> 2 ^ TB_TPOOL_BLOCK_MAXN - 1.

(** The number of blocks of a request, [ceilDiv (size, step)]. *)
Definition blocks_needed (tpool : tb_tpool_t) (size : Z) : Z :=
  (size + (tpool_step tpool - 1)) / tpool_step tpool.

(** The mask [(1 << k) - 1] is computed without a shift by the full
    width. *)
Definition mask_defined (k : Z) : Prop :=
  k < TB_TPOOL_BLOCK_MAXN \/ shift_rule cfg = BitsShiftedOut.

(** A word of [tb_size_t]. *)
Definition is_word (w : Z) : Prop := 0 <= w < 2 ^ TB_TPOOL_BLOCK_MAXN.

(** What [tb_tpool_init] establishes and every call keeps. *)
Record pool_wf (tpool : tb_tpool_t) : Prop := PoolWf
  { wf_magic : tpool_magic tpool = TB_TPOOL_MAGIC;
    wf_step : 16 <= tpool_step tpool <= 64;
    wf_maxn : 0 < tpool_maxn tpool;
    wf_size : tpool_maxn tpool * tpool_step tpool * TB_TPOOL_BLOCK_MAXN
              < 2 ^ TB_TPOOL_BLOCK_MAXN;
    wf_head : 0 < tpool_head tpool;
    wf_body : 0 < tpool_body tpool;
    wf_data : 0 < tpool_data tpool;
    wf_head_len : length (head_words tpool) = Z.to_nat (tpool_maxn tpool);
    wf_body_len : length (body_words tpool) = Z.to_nat (tpool_maxn tpool);
    wf_data_len :
      length (data_bytes tpool)
      = Z.to_nat (tpool_maxn tpool * tpool_step tpool * TB_TPOOL_BLOCK_MAXN);
    wf_head_words : Forall is_word (head_words tpool);
    wf_body_words : Forall is_word (body_words tpool) }.

(** Every head bit is also a body bit. *)
Definition head_in_body (tpool : tb_tpool_t) : Prop :=
  forall (c : nat) (b : Z),
    Z.of_nat c < tpool_maxn tpool ->
    0 <= b ->
    Z.testbit (head_words tpool !!! c) b = true ->
    Z.testbit (body_words tpool !!! c) b = true.

(** The layout of two pools is the same: the magic marker, the alignment,
    the step, the chunk count and the three region pointers. *)
Definition same_layout (p q : tb_tpool_t) : Prop :=
  tpool_magic p = tpool_magic q /\
  tpool_align p = tpool_align q /\
  tpool_step p = tpool_step q /\
  tpool_maxn p = tpool_maxn q /\
  tpool_head p = tpool_head q /\
  tpool_body p = tpool_body q /\
  tpool_data p = tpool_data q.

(** A request whose mask is computed without a shift by the full width:
    every call but a [Malloc] of the largest size on a CPU that takes the
    shift count modulo the width. *)
Definition request_defined (tpool : tb_tpool_t) (o : op) : Prop :=
  match o with
  | Malloc size =>
      0 <= size /\
      (size <= tpool_step tpool * TB_TPOOL_BLOCK_MAXN ->
       mask_defined (blocks_needed tpool size))
  | _ => True
  end.

(** ** Requests that are served *)

(** Block [g] of the data region, counted from its start, is marked taken
    in the body bitmap. *)
Definition block_taken (tpool : tb_tpool_t) (g : Z) : bool :=
  Z.testbit (body_words tpool !!! Z.to_nat (g / TB_TPOOL_BLOCK_MAXN))
            (g mod TB_TPOOL_BLOCK_MAXN).

(** The blocks of every live allocation are marked taken. *)
Definition live_marked (tpool : tb_tpool_t) (live : live_set) : Prop :=
  Forall (fun a =>
            0 <= fst (block_run tpool a) /\
            0 < snd (block_run tpool a) /\
            forall g,
              fst (block_run tpool a) <= g
              < fst (block_run tpool a) + snd (block_run tpool a) ->
              block_taken tpool g = true)
         live.

(** Whichever chunk is the first that is not full, it has room for the
    request. *)
Definition fit_exists (tpool : tb_tpool_t) (size : Z) : Prop :=
  forall c, first_free_chunk tpool c ->
            exists b, lowest_fit (body_words tpool !!! c)
                                 (blocks_needed tpool size) b.

(** A request the search can serve: when it passes the checks of
    [tb_tpool_malloc], its mask is computed without a shift by the full
    width and the first chunk that is not full has room for it. *)
Definition served (tpool : tb_tpool_t) (size : Z) : Prop :=
  0 <= size /\
  (tpool_full tpool = 0 ->
   0 < size <= tpool_step tpool * TB_TPOOL_BLOCK_MAXN ->
   mask_defined (blocks_needed tpool size) /\ fit_exists tpool size).

(** Every allocation of a sequence of calls is served in the state it is
    made in. *)
Fixpoint run_served (ops : list op) (st : tb_tpool_t * live_set) : Prop :=
  match ops with
  | [] => True
  | o :: ops' =>
      match o with
      | Malloc size => served (fst st) size
      | _ => True
      end /\ run_served ops' (exec st o)
  end.

(** Values [tb_tpool_init] computes on the way: the alignment, the step,
    the aligned start of the buffer and what is left of its size, the
    start of the head bitmap, and the quotient that becomes [maxn]. *)
Definition init_align (align : Z) : Z :=
  tb_max (if align =? 0 then TB_CPU_BITBYTE else tb_align_pow2 align)
         TB_CPU_BITBYTE.

Definition init_step (align : Z) : Z :=
  bitfield 7 (tb_max (bitfield 7 (init_align align)) 16).

Definition init_base (data align : Z) : Z :=
  data + (tb_align data (init_align align) - data).

Definition init_size (data size align : Z) : Z :=
  size - (tb_align data (init_align align) - data).

Definition init_head (data align : Z) : Z :=
  tb_align (init_base data align + sizeof_tpool)
           (bitfield 7 (init_align align)).

Definition init_quotient (data size align : Z) : Z :=
  (init_base data align + init_size data size align - init_head data align)
  / ((1 + Z.shiftl (init_step align) 2) * Z.shiftl sizeof_size_t 1).

End Tpool.

(** ** Two configurations and a sample pool *)

Definition x86_64 : platform := Platform Cpu64 CountModWidth false.

Definition arm32 : platform := Platform Cpu32 BitsShiftedOut false.

(** A pool over the 4096 bytes at address 4096, with alignment 16, as
    [tb_tpool_init] makes it on [x86_64]: three chunks of 64 blocks of 16
    bytes. *)
Definition sample_pool : tb_tpool_t :=
  Pool TB_TPOOL_MAGIC 16 16 0 4144 4168 3 0 4192 info_zero
       [0; 0; 0] [0; 0; 0] (replicate 3072 0).

(** The same pool after a first allocation of 528 bytes, 33 blocks. *)
Definition sample_pool_33 : tb_tpool_t :=
  Pool TB_TPOOL_MAGIC 16 16 0 4144 4168 3 0 4192 info_zero
       [1; 0; 0] [Z.ones 33; 0; 0] (replicate 3072 0).

(** The same pool after six allocations of half a chunk and a seventh
    request, which finds every chunk full. *)
Definition sample_pool_full : tb_tpool_t :=
  fst (run x86_64
           [Malloc 512; Malloc 512; Malloc 512; Malloc 512; Malloc 512;
            Malloc 512; Malloc 16]
           (sample_pool, [])).

(** The pool [tb_tpool_init] makes of the same buffer on [arm32]: seven
    chunks of 32 blocks of 16 bytes. *)
Definition sample_pool_arm32 : tb_tpool_t :=
  Pool TB_TPOOL_MAGIC 16 16 0 4128 4156 7 0 4192 info_zero
       (replicate 7 0) (replicate 7 0) (replicate 3584 0).

(** A 64-bit debug build whose shift loses the bits shifted out, and the
    pool [tb_tpool_init] makes of the same buffer there: the header is
    seven words longer. *)
Definition ppc64_debug : platform := Platform Cpu64 BitsShiftedOut true.

Definition sample_pool_debug : tb_tpool_t :=
  Pool TB_TPOOL_MAGIC 16 16 0 4208 4232 3 0 4256 info_zero
       [0; 0; 0] [0; 0; 0] (replicate 3072 0).

(** * Properties *)

Section TpoolFacts.

Variable cfg : platform.

Local Abbreviation MAXN := (TB_TPOOL_BLOCK_MAXN cfg).

(** ** Words and shifts *)

Lemma MAXN_cases : MAXN = 32 \/ MAXN = 64.
Proof. unfold TB_TPOOL_BLOCK_MAXN. destruct (cpu_bits cfg); auto. Qed.

(** [tb_assert_static (TB_TPOOL_BLOCK_MAXN == sizeof (tb_size_t) << 3)] *)
Lemma MAXN_static_assert : MAXN = Z.shiftl (sizeof_size_t cfg) 3.
Proof.
  unfold TB_TPOOL_BLOCK_MAXN, sizeof_size_t, TB_CPU_BITBYTE.
  destruct (cpu_bits cfg); reflexivity.
Qed.

Lemma MAXN_bytes : MAXN = 8 * TB_CPU_BITBYTE cfg.
Proof.
  unfold TB_TPOOL_BLOCK_MAXN, TB_CPU_BITBYTE.
  destruct (cpu_bits cfg); reflexivity.
Qed.

Lemma MAXN_pos : 0 < MAXN.
Proof. destruct MAXN_cases as [H | H]; rewrite H; lia. Qed.

Lemma pow_MAXN_pos : 0 < 2 ^ MAXN.
Proof. apply Z.pow_pos_nonneg; [lia | pose proof MAXN_pos; lia]. Qed.

Lemma wrap_range x : is_word cfg (wrap cfg x).
Proof. apply Z.mod_pos_bound, pow_MAXN_pos. Qed.

Lemma wrap_small x : is_word cfg x -> wrap cfg x = x.
Proof. intros H. apply Z.mod_small, H. Qed.

Lemma shift_count_small n : 0 <= n < MAXN -> shift_count cfg n = n.
Proof.
  intros H. unfold shift_count.
  destruct (shift_rule cfg); [apply Z.mod_small, H | reflexivity].
Qed.

Lemma testbit_wrap x i :
  0 <= i -> Z.testbit (wrap cfg x) i = (i <? MAXN) && Z.testbit x i.
Proof.
  intros Hi. unfold wrap. pose proof MAXN_pos.
  destruct (Z.ltb_spec i MAXN).
  - rewrite Z.mod_pow2_bits_low by lia. reflexivity.
  - rewrite Z.mod_pow2_bits_high by lia. reflexivity.
Qed.

Lemma testbit_wnot w i :
  0 <= i -> Z.testbit (wnot cfg w) i = (i <? MAXN) && negb (Z.testbit w i).
Proof.
  intros Hi. unfold wnot. rewrite testbit_wrap by assumption.
  rewrite Z.lnot_spec by assumption. reflexivity.
Qed.

Lemma is_word_testbit_high w i :
  is_word cfg w -> MAXN <= i -> Z.testbit w i = false.
Proof.
  intros Hw Hi. rewrite <- (wrap_small w Hw).
  pose proof MAXN_pos.
  rewrite testbit_wrap by lia.
  destruct (Z.ltb_spec i MAXN); [lia | reflexivity].
Qed.

Lemma is_word_lor a b :
  is_word cfg a -> is_word cfg b -> is_word cfg (Z.lor a b).
Proof.
  intros Ha Hb. unfold is_word in *. pose proof MAXN_pos. split.
  - apply Z.lor_nonneg. lia.
  - destruct (Z.eq_dec (Z.lor a b) 0) as [-> | Hne]; [apply pow_MAXN_pos |].
    apply Z.log2_lt_pow2; [pose proof (proj2 (Z.lor_nonneg a b)); lia |].
    rewrite Z.log2_lor by lia.
    apply Z.max_lub_lt.
    + destruct (Z.eq_dec a 0) as [-> | ?]; [simpl; lia |].
      apply Z.log2_lt_pow2; lia.
    + destruct (Z.eq_dec b 0) as [-> | ?]; [simpl; lia |].
      apply Z.log2_lt_pow2; lia.
Qed.

(** The mask of [k] blocks is [k] ones, unless the shift that builds it is
    by the full width on a CPU that takes the count modulo the width. *)
Lemma mask_ones k :
  0 < k <= MAXN -> mask_defined cfg k ->
  wrap cfg (shl cfg 1 k - 1) = Z.ones k.
Proof.
  intros Hk Hm. rewrite Z.ones_equiv. pose proof pow_MAXN_pos as Hp.
  destruct (Z.eq_dec k MAXN) as [-> | Hne].
  - destruct Hm as [Hm | Hm]; [lia |].
    unfold shl, shift_count, wrap. rewrite Hm.
    destruct MAXN_cases as [E | E]; rewrite E; reflexivity.
  - unfold shl. rewrite shift_count_small by lia.
    rewrite Z.shiftl_1_l.
    assert (0 < 2 ^ k < 2 ^ MAXN).
    { split; [apply Z.pow_pos_nonneg; lia |].
      apply Z.pow_lt_mono_r; lia. }
    rewrite (wrap_small (2 ^ k)) by (unfold is_word; lia).
    apply wrap_small. unfold is_word. lia.
Qed.

(** On a CPU that takes the count modulo the width, the mask of a whole
    chunk is empty. *)
Lemma mask_wide_masked :
  shift_rule cfg = CountModWidth -> wrap cfg (shl cfg 1 MAXN - 1) = 0.
Proof.
  intros Hm. unfold shl, shift_count, wrap. rewrite Hm.
  destruct MAXN_cases as [E | E]; rewrite E; reflexivity.
Qed.

Lemma land_ones_full x k :
  0 <= k ->
  Z.land x (Z.ones k) = Z.ones k <->
  (forall j, 0 <= j < k -> Z.testbit x j = true).
Proof.
  intros Hk. split.
  - intros H j Hj.
    assert (Hb : Z.testbit (Z.land x (Z.ones k)) j = Z.testbit (Z.ones k) j)
      by (rewrite H; reflexivity).
    rewrite Z.land_spec, Z.ones_spec_low in Hb by lia.
    rewrite andb_true_r in Hb. exact Hb.
  - intros H. apply Z.bits_inj'. intros j Hj.
    rewrite Z.land_spec.
    destruct (Z.lt_ge_cases j k).
    + rewrite Z.ones_spec_low by lia. rewrite H by lia. reflexivity.
    + rewrite Z.ones_spec_high by lia. apply andb_false_r.
Qed.

Lemma free_run_spec w b k :
  0 <= k ->
  free_run cfg w b k = true <->
  b + k <= MAXN /\ forall j, 0 <= j < k -> Z.testbit w (b + j) = false.
Proof.
  intros Hk. unfold free_run.
  rewrite andb_true_iff, Z.leb_le, forallb_forall.
  split; intros [H1 H2]; split; try assumption.
  - intros j Hj.
    specialize (H2 (Z.to_nat j)).
    rewrite Z2Nat.id in H2 by lia.
    apply negb_true_iff, H2, in_seq. lia.
  - intros j Hj%in_seq. apply negb_true_iff, H2. lia.
Qed.

(** The probe of the loop at offset [n] succeeds exactly when [k] free
    blocks start at [n]. *)
Lemma probe_free_run w k n :
  is_word cfg w -> 0 < k -> 0 <= n < MAXN ->
  probe cfg (wnot cfg w) (Z.ones k) n = free_run cfg w n k.
Proof.
  intros Hw Hk Hn. apply eq_true_iff_eq.
  unfold probe. rewrite Z.eqb_eq, land_ones_full by lia.
  rewrite free_run_spec by lia.
  unfold shr. rewrite shift_count_small by assumption.
  split.
  - intros H. split.
    + specialize (H (k - 1) ltac:(lia)).
      rewrite Z.shiftr_spec, testbit_wnot in H by lia.
      apply andb_true_iff in H as [H _]. apply Z.ltb_lt in H. lia.
    + intros j Hj. specialize (H j Hj).
      rewrite Z.shiftr_spec, testbit_wnot in H by lia.
      apply andb_true_iff in H as [_ H]. apply negb_true_iff in H.
      rewrite Z.add_comm. exact H.
  - intros [H1 H2] j Hj.
    rewrite Z.shiftr_spec, testbit_wnot by lia.
    apply andb_true_iff. split; [apply Z.ltb_lt; lia |].
    apply negb_true_iff. rewrite Z.add_comm. apply H2, Hj.
Qed.

End TpoolFacts.

(** ** The two loops of the search *)

Section Search.

Variable cfg : platform.

Local Abbreviation MAXN := (TB_TPOOL_BLOCK_MAXN cfg).

Local Abbreviation ones_word := (2 ^ MAXN - 1).

Lemma all_ones_test w :
  is_word cfg w -> (wrap cfg (w + 1) =? 0) = (w =? ones_word).
Proof.
  intros Hw. unfold is_word in Hw. unfold wrap.
  destruct (Z.eqb_spec w ones_word) as [-> | Hne].
  - replace (2 ^ MAXN - 1 + 1) with (2 ^ MAXN) by lia.
    rewrite Z.mod_same by lia. reflexivity.
  - rewrite Z.mod_small by lia. apply Z.eqb_neq. lia.
Qed.

(** [find_chunk] stops at the first word that is not all ones. *)
Lemma find_chunk_first ws (c : nat) :
  Forall (is_word cfg) ws ->
  (forall j, (j < c)%nat -> ws !!! j = ones_word) ->
  (c < length ws)%nat ->
  ws !!! c <> ones_word ->
  find_chunk cfg ws = c.
Proof.
  intros Hws. revert c.
  induction Hws as [| w ws Hw Hws IH]; intros c Hfull Hlen Hc.
  - simpl in Hlen. lia.
  - simpl. rewrite all_ones_test by assumption.
    destruct c as [| c].
    + simpl in Hc. apply Z.eqb_neq in Hc. rewrite Hc. reflexivity.
    + pose proof (Hfull O ltac:(lia)) as H0. simpl in H0.
      apply Z.eqb_eq in H0. rewrite H0. f_equal.
      apply IH.
      * intros j Hj. apply (Hfull (S j)). lia.
      * simpl in Hlen. lia.
      * exact Hc.
Qed.

(** Conversely, what [find_chunk] returns is the first such word, or the
    length of the array when every word is all ones. *)
Lemma find_chunk_spec ws :
  Forall (is_word cfg) ws ->
  (find_chunk cfg ws <= length ws)%nat /\
  (forall j, (j < find_chunk cfg ws)%nat -> ws !!! j = ones_word) /\
  ((find_chunk cfg ws < length ws)%nat ->
   ws !!! (find_chunk cfg ws) <> ones_word).
Proof.
  induction 1 as [| w ws Hw Hws IH]; simpl.
  - repeat split; intros; lia.
  - rewrite all_ones_test by assumption.
    destruct (Z.eqb_spec w ones_word) as [-> | Hne].
    + destruct IH as (IH1 & IH2 & IH3). repeat split.
      * lia.
      * intros [| j] Hj; [reflexivity | apply IH2; lia].
      * intros Hlt. apply IH3. lia.
    + repeat split; [lia | intros; lia | intros _; exact Hne].
Qed.

(** Closes the case of the loop that leaves at offset [b + j]: every lower
    offset was probed before, in this turn or in an earlier one. *)
Local Ltac found Hlow :=
  left; repeat split; try lia; try assumption;
  intros n Hn;
  match goal with
  | Hn : 0 <= ?n < ?b + ?j |- _ =>
      destruct (Z.lt_ge_cases n b);
      [apply Hlow; lia |
       assert (n = b + 0 \/ n = b + 1 \/ n = b + 2 \/ n = b + 3 \/
               n = b + 4 \/ n = b + 5 \/ n = b + 6 \/ n = b + 7)
         as Hc by lia;
       repeat (destruct Hc as [-> | Hc]; [assumption || lia |]);
       subst; assumption || lia]
  end.

(** The unrolled loop returns the lowest offset below [MAXN] whose probe
    succeeds, and [MAXN] when there is none; the fuel [MAXN / 8] is
    enough. *)
Lemma find_blki_spec blks bits : forall fuel blki,
  0 <= blki <= MAXN -> blki mod 8 = 0 ->
  MAXN - blki <= 8 * Z.of_nat fuel ->
  (forall n, 0 <= n < blki -> probe cfg blks bits n = false) ->
  let r := find_blki cfg fuel blks bits blki in
  (0 <= r < MAXN /\ probe cfg blks bits r = true /\
   forall n, 0 <= n < r -> probe cfg blks bits n = false)
  \/ (r = MAXN /\ forall n, 0 <= n < MAXN -> probe cfg blks bits n = false).
Proof.
  assert (HM : MAXN mod 8 = 0)
    by (destruct (MAXN_cases cfg) as [E | E]; rewrite E; reflexivity).
  induction fuel as [| fuel IH]; intros blki Hb Hm Hf Hlow; simpl.
  - right. assert (blki = MAXN) by lia. subst blki. auto.
  - destruct (Z.ltb_spec blki MAXN) as [Hlt | Hge].
    2: { right. assert (blki = MAXN) by lia. subst blki. auto. }
    assert (Hb8 : blki + 8 <= MAXN).
    { apply Z.mod_divide in Hm, HM; try lia.
      destruct Hm as [x Hx], HM as [y Hy]. lia. }
    destruct (probe cfg blks bits (blki + 0)) eqn:E0;
      [left; repeat split; try lia; try assumption;
       intros n Hn; apply Hlow; lia |].
    destruct (probe cfg blks bits (blki + 1)) eqn:E1; [found Hlow |].
    destruct (probe cfg blks bits (blki + 2)) eqn:E2; [found Hlow |].
    destruct (probe cfg blks bits (blki + 3)) eqn:E3; [found Hlow |].
    destruct (probe cfg blks bits (blki + 4)) eqn:E4; [found Hlow |].
    destruct (probe cfg blks bits (blki + 5)) eqn:E5; [found Hlow |].
    destruct (probe cfg blks bits (blki + 6)) eqn:E6; [found Hlow |].
    destruct (probe cfg blks bits (blki + 7)) eqn:E7; [found Hlow |].
    apply IH; try lia.
    + rewrite <- Zplus_mod_idemp_l, Hm. reflexivity.
    + intros n Hn. destruct (Z.lt_ge_cases n blki); [apply Hlow; lia |].
      assert (n = blki + 0 \/ n = blki + 1 \/ n = blki + 2 \/ n = blki + 3 \/
              n = blki + 4 \/ n = blki + 5 \/ n = blki + 6 \/ n = blki + 7)
        as Hc by lia.
      repeat (destruct Hc as [-> | Hc]; [assumption |]).
      subst. assumption.
Qed.

End Search.

(** ** The search as a whole *)

Section Find.

Variable cfg : platform.

Local Abbreviation MAXN := (TB_TPOOL_BLOCK_MAXN cfg).

Lemma tb_align_blocks tpool size :
  0 < tpool_step tpool ->
  tb_align size (tpool_step tpool) / tpool_step tpool
  = blocks_needed tpool size.
Proof.
  intros Hs. unfold tb_align, blocks_needed.
  apply Z.div_mul. lia.
Qed.

Lemma blocks_needed_range tpool size :
  0 < tpool_step tpool ->
  0 < size <= tpool_step tpool * MAXN ->
  0 < blocks_needed tpool size <= MAXN.
Proof.
  intros Hs Hsz. unfold blocks_needed. split.
  - apply Z.div_str_pos. lia.
  - apply Z.lt_succ_r, Z.div_lt_upper_bound; lia.
Qed.

(** The size rounding of the spec: [size] in [(step*(k-1), step*k]] needs
    [k] blocks. *)
Lemma blocks_needed_interval tpool size k :
  0 < tpool_step tpool ->
  tpool_step tpool * (k - 1) < size <= tpool_step tpool * k ->
  blocks_needed tpool size = k.
Proof.
  intros Hs Hsz. unfold blocks_needed.
  symmetry.
  apply Z.div_unique
    with (r := size + (tpool_step tpool - 1) - tpool_step tpool * k); lia.
Qed.

Lemma lookup_total_word (ws : list Z) (c : nat) :
  Forall (is_word cfg) ws -> (c < length ws)%nat -> is_word cfg (ws !!! c).
Proof.
  intros Hws Hc.
  destruct (lookup_lt_is_Some_2 ws c Hc) as [w Hw].
  rewrite (list_lookup_total_correct _ _ _ Hw).
  eapply Forall_lookup_1; eassumption.
Qed.

(** With a valid size and a chunk that is not full, the search reaches the
    bit loop and then always allocates at the offset the loop ends with:
    the test of [blkn] after the loop never fails, because the loop does
    not change [blkn]. *)
Lemma malloc_find_reaches tpool size c :
  pool_wf cfg tpool ->
  0 < size <= tpool_step tpool * MAXN ->
  first_free_chunk cfg tpool c ->
  let head := head_words tpool !!! c in
  let body := body_words tpool !!! c in
  let bits := wrap cfg (shl cfg 1 (blocks_needed tpool size) - 1) in
  let blki := find_blki cfg (Z.to_nat MAXN) (wnot cfg body) bits 0 in
  tb_tpool_malloc_find cfg tpool size
  = (set_bitmaps (<[c := Z.lor head (shl cfg 1 blki)]> (head_words tpool))
                 (<[c := Z.lor body (shl cfg bits blki)]> (body_words tpool))
                 tpool,
     tpool_data tpool
     + wrap cfg ((Z.of_nat c * MAXN + blki) * tpool_step tpool)).
Proof.
  intros Hwf Hsz (Hc & Hfull & Hfree). cbv zeta.
  pose proof (wf_step _ _ Hwf) as Hstep.
  pose proof (wf_body_len _ _ Hwf) as Hlen.
  pose proof (MAXN_pos cfg) as HM.
  unfold tb_tpool_malloc_find.
  rewrite take_ge by lia.
  rewrite (find_chunk_first cfg _ c (wf_body_words _ _ Hwf) Hfull Hc Hfree).
  replace (Z.of_nat c <? tpool_maxn tpool) with true
    by (symmetry; apply Z.ltb_lt; lia).
  rewrite tb_align_blocks by lia.
  pose proof (blocks_needed_range tpool size ltac:(lia) Hsz) as Hk.
  replace (blocks_needed tpool size =? 0) with false
    by (symmetry; apply Z.eqb_neq; lia).
  replace (blocks_needed tpool size <=? MAXN) with true
    by (symmetry; apply Z.leb_le; lia).
  replace (MAXN =? 0) with false by (symmetry; apply Z.eqb_neq; lia).
  reflexivity.
Qed.

(** The offset the loop ends with. *)
Lemma find_blki_fit tpool size c :
  pool_wf cfg tpool ->
  0 < size <= tpool_step tpool * MAXN ->
  (c < length (body_words tpool))%nat ->
  let k := blocks_needed tpool size in
  let w := body_words tpool !!! c in
  let r := find_blki cfg (Z.to_nat MAXN) (wnot cfg w) (Z.ones k) 0 in
  (forall b, lowest_fit cfg w k b -> r = b) /\
  ((forall b, 0 <= b -> free_run cfg w b k = false) -> r = MAXN).
Proof.
  intros Hwf Hsz Hc k w r.
  pose proof (wf_step _ _ Hwf) as Hstep.
  pose proof (MAXN_pos cfg) as HM.
  pose proof (blocks_needed_range tpool size ltac:(lia) Hsz) as Hk.
  fold k in Hk.
  assert (Hw : is_word cfg w)
    by (apply lookup_total_word; [apply (wf_body_words _ _ Hwf) | exact Hc]).
  pose proof (find_blki_spec cfg (wnot cfg w) (Z.ones k) (Z.to_nat MAXN) 0)
    as Hspec.
  cbv zeta in Hspec. fold r in Hspec.
  specialize (Hspec ltac:(lia) eq_refl ltac:(lia) ltac:(intros; lia)).
  split.
  - intros b (Hb0 & Hfit & Hlow).
    assert (Hb : b < MAXN).
    { apply free_run_spec in Hfit as [Hfit _]; lia. }
    destruct Hspec as [(Hr & Hpr & Hlo) | (Hr & Hno)].
    + rewrite probe_free_run in Hpr by (assumption || lia).
      destruct (Z.lt_trichotomy r b) as [Hlt | [Heq | Hgt]]; [| exact Heq |].
      * rewrite Hlow in Hpr by lia. discriminate.
      * specialize (Hlo b ltac:(lia)).
        rewrite probe_free_run in Hlo by (assumption || lia).
        congruence.
    + specialize (Hno b ltac:(lia)).
      rewrite probe_free_run in Hno by (assumption || lia).
      congruence.
  - intros Hnone.
    destruct Hspec as [(Hr & Hpr & Hlo) | (Hr & Hno)]; [| exact Hr].
    rewrite probe_free_run in Hpr by (assumption || lia).
    rewrite Hnone in Hpr by lia. discriminate.
Qed.

End Find.

(** ** Allocation *)

Section Malloc.

Variable cfg : platform.

Local Abbreviation MAXN := (TB_TPOOL_BLOCK_MAXN cfg).

Lemma testbit_shl_ones k n i :
  0 <= k -> 0 <= i ->
  Z.testbit (shl cfg (Z.ones k) n) i
  = (i <? MAXN) && (shift_count cfg n <=? i) && (i <? shift_count cfg n + k).
Proof.
  intros Hk Hi. unfold shl.
  rewrite testbit_wrap, Z.shiftl_spec by assumption.
  rewrite Z.testbit_ones by assumption.
  rewrite <- andb_assoc. f_equal.
  lia.
Qed.

Lemma testbit_shl_1 n i :
  0 <= i ->
  Z.testbit (shl cfg 1 n) i = (i <? MAXN) && (i =? shift_count cfg n).
Proof.
  intros Hi. change 1 with (Z.ones 1).
  rewrite testbit_shl_ones by lia.
  rewrite <- andb_assoc. f_equal.
  lia.
Qed.

Lemma is_word_shl x n : is_word cfg (shl cfg x n).
Proof. apply wrap_range. Qed.

(** What [tb_tpool_malloc_find] can return: nothing, with the pool as it
    was, or an address, with one word of each bitmap updated. *)
Lemma malloc_find_shape tpool size :
  tb_tpool_malloc_find cfg tpool size = (tpool, TB_NULL)
  \/ exists (c : nat) (bits blki : Z),
       Z.of_nat c < tpool_maxn tpool /\
       (0 < blocks_needed tpool size <= MAXN ->
        0 < tpool_step tpool ->
        bits = wrap cfg (shl cfg 1 (blocks_needed tpool size) - 1)) /\
       tb_tpool_malloc_find cfg tpool size
       = (set_bitmaps
            (<[c := Z.lor (head_words tpool !!! c) (shl cfg 1 blki)]>
               (head_words tpool))
            (<[c := Z.lor (body_words tpool !!! c) (shl cfg bits blki)]>
               (body_words tpool))
            tpool,
          tpool_data tpool
          + wrap cfg ((Z.of_nat c * MAXN + blki) * tpool_step tpool)).
Proof.
  unfold tb_tpool_malloc_find.
  destruct (Z.ltb_spec
              (Z.of_nat (find_chunk cfg (take (Z.to_nat (tpool_maxn tpool))
                                              (body_words tpool))))
              (tpool_maxn tpool)) as [Hc | Hc]; simpl; [| left; reflexivity].
  destruct (negb (_ =? 0) && (_ <=? MAXN)) eqn:Hk; simpl;
    [| left; reflexivity].
  destruct (MAXN =? 0) eqn:HM; [left; reflexivity |].
  right. eexists _, _, _. split; [exact Hc |]. split; [| reflexivity].
  intros _ Hs. rewrite tb_align_blocks by assumption. reflexivity.
Qed.

(** A call of [tb_tpool_malloc] that passes the checks is the search,
    followed by the update of the diagnostics and of the [full] flag. *)
Lemma malloc_through_find tpool size :
  tpool_magic tpool = TB_TPOOL_MAGIC ->
  0 <= tpool_step tpool <= 64 ->
  0 < size <= tpool_step tpool * MAXN ->
  tpool_full tpool = 0 ->
  let r := tb_tpool_malloc_find cfg tpool size in
  let m := tb_tpool_malloc cfg tpool size in
  snd m = snd r /\
  head_words (fst m) = head_words (fst r) /\
  body_words (fst m) = body_words (fst r) /\
  data_bytes (fst m) = data_bytes (fst r) /\
  same_layout (fst r) (fst m) /\
  tpool_full (fst m) = (if snd r =? 0 then 1 else tpool_full (fst r)).
Proof.
  intros Hmagic Hstep Hsz Hfull. cbv zeta. unfold tb_tpool_malloc.
  rewrite Hmagic, Z.eqb_refl. simpl.
  replace (size =? 0) with false by (symmetry; apply Z.eqb_neq; lia).
  rewrite wrap_small.
  2: { unfold is_word.
       destruct (MAXN_cases cfg) as [E | E]; rewrite E; lia. }
  replace (size <=? tpool_step tpool * MAXN) with true
    by (symmetry; apply Z.leb_le; lia).
  rewrite Hfull. simpl.
  destruct (tb_tpool_malloc_find cfg tpool size) as [q d]. simpl.
  unfold same_layout.
  destruct (TB_DEBUG cfg), (d =? 0); simpl; repeat split; reflexivity.
Qed.

(** Whatever the arguments, [tb_tpool_malloc] keeps the layout, the data
    region and the length of the bitmaps. *)
Lemma malloc_find_frame tpool size :
  let r := tb_tpool_malloc_find cfg tpool size in
  same_layout tpool (fst r) /\
  data_bytes (fst r) = data_bytes tpool /\
  tpool_full (fst r) = tpool_full tpool /\
  length (head_words (fst r)) = length (head_words tpool) /\
  length (body_words (fst r)) = length (body_words tpool).
Proof.
  cbv zeta.
  destruct (malloc_find_shape tpool size)
    as [-> | (c & bits & blki & _ & _ & ->)];
    simpl; unfold same_layout; rewrite ?length_insert; repeat split;
    reflexivity.
Qed.

Lemma malloc_frame tpool size :
  let m := tb_tpool_malloc cfg tpool size in
  same_layout tpool (fst m) /\
  data_bytes (fst m) = data_bytes tpool /\
  length (head_words (fst m)) = length (head_words tpool) /\
  length (body_words (fst m)) = length (body_words tpool).
Proof.
  cbv zeta. unfold tb_tpool_malloc.
  destruct (negb (tpool_magic tpool =? TB_TPOOL_MAGIC));
    [unfold same_layout; repeat split; reflexivity |].
  destruct (size =? 0);
    [unfold same_layout; repeat split; reflexivity |].
  destruct (negb (size <=? _));
    [unfold same_layout; repeat split; reflexivity |].
  destruct (negb (tpool_full tpool =? 0));
    [unfold same_layout; repeat split; reflexivity |].
  pose proof (malloc_find_frame tpool size) as Hf. cbv zeta in Hf.
  destruct (tb_tpool_malloc_find cfg tpool size) as [q d]. simpl in Hf.
  destruct Hf as ((H1 & H2 & H3 & H4 & H5 & H6 & H7) & Hd & _ & Hh & Hb).
  unfold same_layout.
  destruct (TB_DEBUG cfg), (d =? 0); simpl; repeat split; assumption.
Qed.

End Malloc.

(** ** What every call keeps *)

Section Invariants.

Variable cfg : platform.

Local Abbreviation MAXN := (TB_TPOOL_BLOCK_MAXN cfg).

Lemma pool_wf_layout p q :
  pool_wf cfg p -> same_layout p q ->
  data_bytes q = data_bytes p ->
  length (head_words q) = length (head_words p) ->
  length (body_words q) = length (body_words p) ->
  Forall (is_word cfg) (head_words q) ->
  Forall (is_word cfg) (body_words q) ->
  pool_wf cfg q.
Proof.
  intros [] (H1 & H2 & H3 & H4 & H5 & H6 & H7) Hd Hh Hb Hhw Hbw.
  constructor; rewrite <- ?H1, <- ?H3, <- ?H4, <- ?H5, <- ?H6, <- ?H7,
                 ?Hd, ?Hh, ?Hb; assumption.
Qed.

Lemma malloc_find_words tpool size :
  pool_wf cfg tpool ->
  Forall (is_word cfg) (head_words (fst (tb_tpool_malloc_find cfg tpool size)))
  /\ Forall (is_word cfg)
            (body_words (fst (tb_tpool_malloc_find cfg tpool size))).
Proof.
  intros Hwf.
  pose proof (wf_head_words _ _ Hwf) as Hh.
  pose proof (wf_body_words _ _ Hwf) as Hb.
  pose proof (wf_head_len _ _ Hwf) as Hhl.
  pose proof (wf_body_len _ _ Hwf) as Hbl.
  destruct (malloc_find_shape cfg tpool size)
    as [-> | (c & bits & blki & Hc & _ & ->)]; simpl; [auto |].
  split; apply Forall_insert; try assumption; apply is_word_lor;
    try apply is_word_shl; apply lookup_total_word; try assumption; lia.
Qed.

Lemma malloc_words tpool size :
  pool_wf cfg tpool ->
  Forall (is_word cfg) (head_words (fst (tb_tpool_malloc cfg tpool size)))
  /\ Forall (is_word cfg) (body_words (fst (tb_tpool_malloc cfg tpool size))).
Proof.
  intros Hwf.
  pose proof (malloc_find_words tpool size Hwf) as Hf.
  pose proof (wf_head_words _ _ Hwf) as Hh.
  pose proof (wf_body_words _ _ Hwf) as Hb.
  unfold tb_tpool_malloc.
  destruct (negb (tpool_magic tpool =? TB_TPOOL_MAGIC)); [auto |].
  destruct (size =? 0); [auto |].
  destruct (negb (size <=? _)); [auto |].
  destruct (negb (tpool_full tpool =? 0)); [auto |].
  destruct (tb_tpool_malloc_find cfg tpool size) as [q d]. simpl in Hf.
  destruct (TB_DEBUG cfg), (d =? 0); simpl; exact Hf.
Qed.

Lemma malloc_wf tpool size :
  pool_wf cfg tpool -> pool_wf cfg (fst (tb_tpool_malloc cfg tpool size)).
Proof.
  intros Hwf.
  destruct (malloc_frame cfg tpool size) as (Hl & Hd & Hh & Hb).
  destruct (malloc_words tpool size Hwf) as [Hhw Hbw].
  eapply pool_wf_layout; eassumption.
Qed.

Lemma memset0_all n l :
  length l = Z.to_nat n -> memset0 n l = replicate (length l) 0.
Proof.
  intros H. unfold memset0.
  rewrite drop_ge by lia. rewrite app_nil_r. f_equal. lia.
Qed.

Lemma Forall_replicate_zero (n : nat) : Forall (is_word cfg) (replicate n 0).
Proof.
  apply Forall_replicate. unfold is_word.
  pose proof (pow_MAXN_pos cfg). lia.
Qed.

Lemma data_size_wrap tpool :
  pool_wf cfg tpool ->
  wrap cfg (wrap cfg (tpool_maxn tpool * tpool_step tpool) * MAXN)
  = tpool_maxn tpool * tpool_step tpool * MAXN.
Proof.
  intros Hwf.
  pose proof (wf_step _ _ Hwf). pose proof (wf_maxn _ _ Hwf).
  pose proof (wf_size _ _ Hwf). pose proof (MAXN_pos cfg).
  rewrite (wrap_small cfg (tpool_maxn tpool * tpool_step tpool))
    by (unfold is_word; nia).
  apply wrap_small. unfold is_word. nia.
Qed.

(** The bitmaps and the data region after [tb_tpool_clear]. *)
Lemma clear_regions tpool :
  pool_wf cfg tpool ->
  head_words (tb_tpool_clear cfg tpool)
  = replicate (length (head_words tpool)) 0 /\
  body_words (tb_tpool_clear cfg tpool)
  = replicate (length (body_words tpool)) 0 /\
  data_bytes (tb_tpool_clear cfg tpool)
  = replicate (length (data_bytes tpool)) 0.
Proof.
  intros Hwf. unfold tb_tpool_clear.
  rewrite (wf_magic _ _ Hwf), Z.eqb_refl. simpl.
  pose proof (wf_head _ _ Hwf). pose proof (wf_body _ _ Hwf).
  pose proof (wf_data _ _ Hwf).
  replace (tpool_head tpool =? 0) with false
    by (symmetry; apply Z.eqb_neq; lia).
  replace (tpool_body tpool =? 0) with false
    by (symmetry; apply Z.eqb_neq; lia).
  replace (tpool_data tpool =? 0) with false
    by (symmetry; apply Z.eqb_neq; lia).
  rewrite data_size_wrap by assumption.
  rewrite !memset0_all by (eapply wf_head_len || eapply wf_body_len
                          || eapply wf_data_len; eassumption).
  repeat split; reflexivity.
Qed.

Lemma clear_layout tpool : same_layout tpool (tb_tpool_clear cfg tpool).
Proof.
  unfold tb_tpool_clear, same_layout.
  destruct (negb (tpool_magic tpool =? TB_TPOOL_MAGIC)); simpl;
    repeat split; reflexivity.
Qed.

Lemma clear_wf tpool :
  pool_wf cfg tpool -> pool_wf cfg (tb_tpool_clear cfg tpool).
Proof.
  intros Hwf. destruct (clear_regions tpool Hwf) as (Hh & Hb & Hd).
  pose proof (clear_layout tpool) as (H1 & H2 & H3 & H4 & H5 & H6 & H7).
  destruct Hwf.
  constructor; rewrite <- ?H1, <- ?H3, <- ?H4, <- ?H5, <- ?H6, <- ?H7,
                 ?Hh, ?Hb, ?Hd, ?length_replicate;
    try assumption; apply Forall_replicate_zero.
Qed.

Lemma exec_wf st o :
  pool_wf cfg (fst st) -> pool_wf cfg (fst (exec cfg st o)).
Proof.
  destruct st as [tpool live]. simpl. intros Hwf.
  destruct o as [size | data |]; simpl.
  - pose proof (malloc_wf tpool size Hwf).
    destruct (tb_tpool_malloc cfg tpool size). assumption.
  - assumption.
  - apply clear_wf, Hwf.
Qed.

Lemma run_wf ops : forall st,
  pool_wf cfg (fst st) -> pool_wf cfg (fst (run cfg ops st)).
Proof.
  induction ops as [| o ops IH]; intros st Hwf; simpl; [assumption |].
  apply IH, exec_wf, Hwf.
Qed.

Lemma exec_layout st o : same_layout (fst st) (fst (exec cfg st o)).
Proof.
  destruct st as [tpool live]. destruct o as [size | data |]; simpl.
  - pose proof (malloc_frame cfg tpool size) as (H & _).
    destruct (tb_tpool_malloc cfg tpool size). exact H.
  - unfold same_layout. repeat split; reflexivity.
  - apply clear_layout.
Qed.

(** *** Head bits are body bits *)







End Invariants.

(** ** Initialisation *)

Section Init.

Variable cfg : platform.

Local Abbreviation MAXN := (TB_TPOOL_BLOCK_MAXN cfg).

Lemma tb_align_ge x b : 0 < b -> x <= tb_align x b.
Proof.
  intros Hb. unfold tb_align.
  pose proof (Z.div_mod (x + (b - 1)) b ltac:(lia)).
  pose proof (Z.mod_pos_bound (x + (b - 1)) b Hb).
  lia.
Qed.

Lemma BITBYTE_cases : TB_CPU_BITBYTE cfg = 4 \/ TB_CPU_BITBYTE cfg = 8.
Proof. unfold TB_CPU_BITBYTE. destruct (cpu_bits cfg); auto. Qed.

Lemma tb_max_spec a b : tb_max a b = Z.max a b.
Proof. unfold tb_max. destruct (Z.gtb_spec a b); lia. Qed.

Lemma init_align_ge align : TB_CPU_BITBYTE cfg <= init_align cfg align.
Proof. unfold init_align. rewrite tb_max_spec. lia. Qed.

Lemma bitfield_small n x : 0 <= x < 2 ^ n -> bitfield n x = x.
Proof. apply Z.mod_small. Qed.

Lemma init_step_range align :
  init_align cfg align <= TB_TPOOL_ALIGN_MAXN ->
  bitfield 7 (init_align cfg align) = init_align cfg align /\
  init_step cfg align = Z.max (init_align cfg align) 16 /\
  16 <= init_step cfg align <= 64.
Proof.
  intros Hle. unfold TB_TPOOL_ALIGN_MAXN in Hle.
  pose proof (init_align_ge align). pose proof BITBYTE_cases.
  assert (Ha : bitfield 7 (init_align cfg align) = init_align cfg align)
    by (apply bitfield_small; change (2 ^ 7) with 128; lia).
  unfold init_step. rewrite Ha, tb_max_spec.
  rewrite bitfield_small by (change (2 ^ 7) with 128; lia).
  repeat split; lia.
Qed.

(** The divisor of line 280 is the size of one chunk with its two bitmap
    words. *)
Lemma chunk_bytes step :
  (1 + Z.shiftl step 2) * Z.shiftl (sizeof_size_t cfg) 1
  = 2 * sizeof_size_t cfg + MAXN * step.
Proof.
  rewrite !Z.shiftl_mul_pow2 by lia. rewrite MAXN_bytes.
  unfold sizeof_size_t. change (2 ^ 2) with 4. change (2 ^ 1) with 2. lia.
Qed.

Local Ltac pass_checks :=
  repeat match goal with
         | |- context [if ?c then None else _] =>
             let E := fresh "E" in destruct c eqn:E; [discriminate |]
         end.

Lemma init_end data size align :
  init_base cfg data align + init_size cfg data size align = data + size.
Proof. unfold init_base, init_size. lia. Qed.

Lemma init_quotient_eq data size align :
  init_quotient cfg data size align
  = (data + size - init_head cfg data align)
    / (2 * sizeof_size_t cfg + MAXN * init_step cfg align).
Proof. unfold init_quotient. rewrite init_end, chunk_bytes. reflexivity. Qed.

(** [tb_tpool_init] with its intermediate values named. *)
Lemma init_unfold data size align :
  tb_tpool_init cfg data size align
  = let a := bitfield 7 (init_align cfg align) in
    let step := init_step cfg align in
    let base := init_base cfg data align in
    let size' := init_size cfg data size align in
    let head := init_head cfg data align in
    let maxn := init_quotient cfg data size align in
    let body := head + maxn * sizeof_size_t cfg in
    let pdata := tb_align (body + maxn * sizeof_size_t cfg) a in
    if (data =? 0) || (size =? 0) then None else
    if negb (init_align cfg align <=? TB_TPOOL_ALIGN_MAXN) then None else
    if negb (size >=? tb_align data (init_align cfg align) - data)
    then None else
    if size' =? 0 then None else
    if negb (base + size' >? head) then None else
    if negb (Z.land head (TB_CPU_BITBYTE cfg - 1) =? 0) then None else
    if maxn =? 0 then None else
    if negb (base + size' >? body) then None else
    if negb (Z.land body (TB_CPU_BITBYTE cfg - 1) =? 0) then None else
    if negb (base + size' >? pdata) then None else
    if negb (wrap cfg (wrap cfg (maxn * step) * MAXN)
             <=? base + size' - pdata) then None else
    Some (Pool (bitfield 16 TB_TPOOL_MAGIC) a step 0 head body maxn 0 pdata
               info_zero
               (replicate (Z.to_nat maxn) 0) (replicate (Z.to_nat maxn) 0)
               (replicate (Z.to_nat (maxn * step * MAXN)) 0)).
Proof. reflexivity. Qed.

(** A successful [tb_tpool_init], check by check. *)
Lemma init_some data size align p :
  tb_tpool_init cfg data size align = Some p ->
  let a := init_align cfg align in
  let step := init_step cfg align in
  let head := init_head cfg data align in
  let maxn := init_quotient cfg data size align in
  let body := head + maxn * sizeof_size_t cfg in
  let pdata := tb_align (body + maxn * sizeof_size_t cfg) a in
  (data <> 0 /\ TB_CPU_BITBYTE cfg <= a <= TB_TPOOL_ALIGN_MAXN /\
   16 <= step <= 64 /\
   tb_align data a - data <= size /\
   head < data + size /\ maxn <> 0 /\
   wrap cfg (wrap cfg (maxn * step) * MAXN) <= data + size - pdata) /\
  p = Pool TB_TPOOL_MAGIC a step 0 head body maxn 0 pdata info_zero
           (replicate (Z.to_nat maxn) 0) (replicate (Z.to_nat maxn) 0)
           (replicate (Z.to_nat (maxn * step * MAXN)) 0).
Proof.
  rewrite init_unfold. cbv zeta. pass_checks.
  intros [= <-].
  apply orb_false_iff in E as [E _].
  apply negb_false_iff, Z.leb_le in E0.
  destruct (init_step_range align E0) as (Ha & Hs & Hr).
  rewrite Ha in *. rewrite init_end in *.
  pose proof (init_align_ge align).
  split; [| reflexivity].
  apply Z.eqb_neq in E, E5.
  apply negb_false_iff in E1, E3, E9.
  repeat split; lia.
Qed.

(** What a successful [tb_tpool_init] guarantees about the numbers. *)
Lemma init_bounds data size align p :
  size < 2 ^ MAXN ->
  tb_tpool_init cfg data size align = Some p ->
  let n := tpool_maxn p in
  0 < n /\
  16 <= tpool_step p <= 64 /\
  n * (2 * sizeof_size_t cfg + MAXN * tpool_step p)
  <= data + size - tpool_head p /\
  data <= tpool_head p /\
  tpool_body p = tpool_head p + n * sizeof_size_t cfg /\
  tpool_body p + n * sizeof_size_t cfg <= tpool_data p /\
  tpool_data p + n * tpool_step p * MAXN <= data + size /\
  n * tpool_step p * MAXN < 2 ^ MAXN.
Proof.
  intros Hsz Hinit.
  destruct (init_some data size align p Hinit)
    as ((Hd & Ha & Hs & Hb & Hh & Hq & Hfit) & ->).
  cbv zeta in *. simpl.
  set (a := init_align cfg align) in *.
  set (step := init_step cfg align) in *.
  set (head := init_head cfg data align) in *.
  rewrite init_quotient_eq in *. fold step head in Hq, Hfit |- *.
  set (D := 2 * sizeof_size_t cfg + MAXN * step) in *.
  set (n := (data + size - head) / D) in *.
  pose proof BITBYTE_cases as Hws. pose proof (MAXN_pos cfg) as HM.
  pose proof (MAXN_bytes cfg) as HMb.
  assert (HD : 0 < D) by (unfold D, sizeof_size_t; nia).
  assert (Hn : 0 < n).
  { assert (0 <= n) by (apply Z.div_pos; lia). lia. }
  assert (HnD : n * D <= data + size - head).
  { rewrite Z.mul_comm. apply Z.mul_div_le. exact HD. }
  assert (Hbase : data <= init_base cfg data align).
  { unfold init_base. fold a.
    pose proof (tb_align_ge data a ltac:(lia)). lia. }
  assert (Hhead : init_base cfg data align <= head).
  { unfold head, init_head.
    destruct (init_step_range align ltac:(apply Ha)) as (-> & _).
    fold a.
    pose proof (tb_align_ge (init_base cfg data align + sizeof_tpool cfg) a
                  ltac:(lia)).
    assert (0 <= sizeof_tpool cfg).
    { unfold sizeof_tpool, sizeof_size_t. destruct (TB_DEBUG cfg); lia. }
    lia. }
  assert (Hcap : n * step * MAXN <= n * D) by (unfold D, sizeof_size_t; nia).
  assert (Hlt : n * step * MAXN < 2 ^ MAXN) by lia.
  assert (Hns0 : 0 <= n * step) by (apply Z.mul_nonneg_nonneg; lia).
  assert (Hns : n * step * 1 <= n * step * MAXN)
    by (apply Z.mul_le_mono_nonneg_l; lia).
  rewrite (wrap_small cfg (n * step)) in Hfit by (unfold is_word; lia).
  rewrite wrap_small in Hfit by (unfold is_word; lia).
  pose proof (tb_align_ge (head + n * sizeof_size_t cfg + n * sizeof_size_t cfg)
                a ltac:(lia)).
  repeat split; try lia.
Qed.

(** A successful [tb_tpool_init] returns a well-formed, empty pool. *)
Lemma init_wf data size align p :
  0 < data -> size < 2 ^ MAXN ->
  tb_tpool_init cfg data size align = Some p ->
  pool_wf cfg p /\ head_in_body p /\ tpool_full p = 0.
Proof.
  intros Hd Hsz Hinit.
  pose proof (init_bounds data size align p Hsz Hinit) as Hb.
  cbv zeta in Hb.
  destruct Hb as (Hn & Hs & HnD & Hh & Hbody & Hdata & Hend & Hlt).
  destruct (init_some data size align p Hinit) as (_ & Hp).
  pose proof BITBYTE_cases as Hws.
  assert (Hws' : 0 < sizeof_size_t cfg) by (unfold sizeof_size_t; lia).
  rewrite Hp in *. simpl in *.
  split; [| split; [| reflexivity]].
  - constructor; simpl; rewrite ?length_replicate;
      try apply Forall_replicate_zero; try reflexivity; lia.
  - intros c b Hc Hb0. simpl in Hc |- *.
    rewrite lookup_total_replicate_2 by lia.
    rewrite Z.bits_0. discriminate.
Qed.

End Init.

(** ** The result of an allocation *)

Section MallocResult.

Variable cfg : platform.

Local Abbreviation MAXN := (TB_TPOOL_BLOCK_MAXN cfg).

(** With a valid size, on a pool that is not marked full and has a chunk
    that is not full, [tb_tpool_malloc] always returns an address. *)
Lemma malloc_reaches tpool size c :
  pool_wf cfg tpool -> tpool_full tpool = 0 ->
  0 < size <= tpool_step tpool * MAXN ->
  first_free_chunk cfg tpool c ->
  let head := head_words tpool !!! c in
  let body := body_words tpool !!! c in
  let bits := wrap cfg (shl cfg 1 (blocks_needed tpool size) - 1) in
  let blki := find_blki cfg (Z.to_nat MAXN) (wnot cfg body) bits 0 in
  let m := tb_tpool_malloc cfg tpool size in
  snd m = tpool_data tpool
          + wrap cfg ((Z.of_nat c * MAXN + blki) * tpool_step tpool) /\
  snd m <> TB_NULL /\
  tpool_full (fst m) = 0 /\
  head_words (fst m)
  = <[c := Z.lor head (shl cfg 1 blki)]> (head_words tpool) /\
  body_words (fst m)
  = <[c := Z.lor body (shl cfg bits blki)]> (body_words tpool) /\
  data_bytes (fst m) = data_bytes tpool.
Proof.
  intros Hwf Hfull Hsz Hc. cbv zeta.
  pose proof (wf_step _ _ Hwf) as Hstep.
  pose proof (wf_data _ _ Hwf) as Hdata.
  pose proof (malloc_through_find cfg tpool size (wf_magic _ _ Hwf)
                ltac:(lia) Hsz Hfull) as Hm.
  pose proof (malloc_find_reaches cfg tpool size c Hwf Hsz Hc) as Hr.
  cbv zeta in Hm, Hr. rewrite Hr in Hm. simpl in Hm.
  destruct Hm as (Hs & Hh & Hb & Hd & _ & Hf).
  match type of Hs with
  | _ = _ + wrap cfg ?x => pose proof (wrap_range cfg x) as Hw
  end.
  unfold is_word in Hw.
  rewrite Hs, Hh, Hb, Hd, Hf. unfold TB_NULL.
  repeat split; try reflexivity; try lia.
  match goal with |- (if ?c then _ else _) = _ =>
    replace c with false by (symmetry; apply Z.eqb_neq; lia) end.
  exact Hfull.
Qed.

Lemma offset_small tpool (c : nat) b :
  pool_wf cfg tpool ->
  (c < length (body_words tpool))%nat -> 0 <= b <= MAXN ->
  wrap cfg ((Z.of_nat c * MAXN + b) * tpool_step tpool)
  = (Z.of_nat c * MAXN + b) * tpool_step tpool.
Proof.
  intros Hwf Hc Hb.
  pose proof (wf_step _ _ Hwf). pose proof (wf_size _ _ Hwf).
  pose proof (wf_body_len _ _ Hwf). pose proof (MAXN_pos cfg).
  apply wrap_small. unfold is_word.
  assert (Z.of_nat c + 1 <= tpool_maxn tpool) by lia.
  assert ((Z.of_nat c * MAXN + b) <= tpool_maxn tpool * MAXN) by nia.
  split; [apply Z.mul_nonneg_nonneg; nia |].
  eapply Z.le_lt_trans; [| eassumption].
  replace (tpool_maxn tpool * tpool_step tpool * MAXN)
    with (tpool_maxn tpool * MAXN * tpool_step tpool) by ring.
  apply Z.mul_le_mono_nonneg_r; lia.
Qed.

(** First fit: when [k] free blocks start at offset [b] of the first
    chunk that is not full, and at no lower offset, the allocation sets
    head bit [b] and body bits [b .. b+k-1] of that chunk, changes no
    other bit, and returns the address of block [b] of the chunk.  This
    holds whenever the mask is computed without a shift by the full
    width. *)
Lemma malloc_first_fit tpool size c b :
  pool_wf cfg tpool -> tpool_full tpool = 0 ->
  0 < size <= tpool_step tpool * MAXN ->
  mask_defined cfg (blocks_needed tpool size) ->
  first_free_chunk cfg tpool c ->
  lowest_fit cfg (body_words tpool !!! c) (blocks_needed tpool size) b ->
  let k := blocks_needed tpool size in
  let m := tb_tpool_malloc cfg tpool size in
  snd m = tpool_data tpool + (Z.of_nat c * MAXN + b) * tpool_step tpool /\
  (forall i, 0 <= i ->
     Z.testbit (body_words (fst m) !!! c) i
     = Z.testbit (body_words tpool !!! c) i || ((b <=? i) && (i <? b + k))) /\
  (forall i, 0 <= i ->
     Z.testbit (head_words (fst m) !!! c) i
     = Z.testbit (head_words tpool !!! c) i || (i =? b)) /\
  (forall c' : nat, c' <> c ->
     body_words (fst m) !!! c' = body_words tpool !!! c' /\
     head_words (fst m) !!! c' = head_words tpool !!! c') /\
  data_bytes (fst m) = data_bytes tpool /\
  tpool_full (fst m) = 0.
Proof.
  intros Hwf Hfull Hsz Hm Hc Hfit. cbv zeta.
  pose proof (wf_step _ _ Hwf) as Hstep.
  pose proof (blocks_needed_range cfg tpool size ltac:(lia) Hsz) as Hk.
  pose proof (malloc_reaches tpool size c Hwf Hfull Hsz Hc) as Hr.
  cbv zeta in Hr. rewrite mask_ones in Hr by assumption.
  destruct (find_blki_fit cfg tpool size c Hwf Hsz (proj1 Hc)) as [Hlow _].
  rewrite (Hlow b Hfit) in Hr.
  destruct Hr as (Hs & _ & Hf & Hh & Hb & Hd).
  destruct Hfit as (Hb0 & Hrun & _).
  apply free_run_spec in Hrun as [Hbk _]; [| lia].
  pose proof (wf_head_len _ _ Hwf) as Hhl.
  pose proof (wf_body_len _ _ Hwf) as Hbl.
  destruct Hc as (Hc & _).
  rewrite offset_small in Hs by (assumption || lia).
  rewrite Hs, Hh, Hb, Hd, Hf.
  repeat split; try reflexivity.
  - intros i Hi. rewrite list_lookup_total_insert_eq by lia.
    rewrite Z.lor_spec, testbit_shl_ones by lia.
    rewrite shift_count_small by lia. f_equal. lia.
  - intros i Hi. rewrite list_lookup_total_insert_eq by lia.
    rewrite Z.lor_spec, testbit_shl_1 by lia.
    rewrite shift_count_small by lia. f_equal. lia.
  - apply list_lookup_total_insert_ne. auto.
  - apply list_lookup_total_insert_ne. auto.
Qed.

(** On a CPU that takes the shift count modulo the width, a request for a
    whole chunk gets the empty mask: the loop stops at offset 0 whatever
    the body word is, no body bit is set, and head bit 0 is. *)
Lemma malloc_whole_chunk_masked tpool c :
  shift_rule cfg = CountModWidth ->
  pool_wf cfg tpool -> tpool_full tpool = 0 ->
  first_free_chunk cfg tpool c ->
  let m := tb_tpool_malloc cfg tpool (tpool_step tpool * MAXN) in
  snd m = tpool_data tpool + Z.of_nat c * MAXN * tpool_step tpool /\
  body_words (fst m) = body_words tpool /\
  head_words (fst m)
  = <[c := Z.lor (head_words tpool !!! c) 1]> (head_words tpool).
Proof.
  intros Hrule Hwf Hfull Hc. cbv zeta.
  pose proof (wf_step _ _ Hwf) as Hstep.
  pose proof (MAXN_pos cfg) as HM.
  assert (Hsz : 0 < tpool_step tpool * MAXN <= tpool_step tpool * MAXN)
    by nia.
  pose proof (malloc_reaches tpool _ c Hwf Hfull Hsz Hc) as Hr.
  cbv zeta in Hr.
  rewrite (blocks_needed_interval tpool _ MAXN) in Hr by lia.
  rewrite mask_wide_masked in Hr by assumption.
  assert (Hblki : forall blks,
             find_blki cfg (Z.to_nat MAXN) blks 0 0 = 0).
  { intros blks. destruct (Z.to_nat MAXN) eqn:E; [lia |]. simpl.
    replace (0 <? MAXN) with true by (symmetry; apply Z.ltb_lt; lia).
    unfold probe. rewrite Z.land_0_r. reflexivity. }
  rewrite Hblki in Hr.
  destruct Hr as (Hs & _ & _ & Hh & Hb & _).
  destruct Hc as (Hc & _).
  rewrite offset_small in Hs by (assumption || lia).
  assert (H0 : shl cfg 0 0 = 0).
  { unfold shl. rewrite Z.shiftl_0_l. apply wrap_small.
    unfold is_word. pose proof (pow_MAXN_pos cfg). lia. }
  assert (H1 : shl cfg 1 0 = 1).
  { unfold shl. rewrite shift_count_small by lia.
    apply wrap_small. unfold is_word. simpl.
    destruct (MAXN_cases cfg) as [E | E]; rewrite E; lia. }
  rewrite H0, Z.lor_0_r in Hb. rewrite H1 in Hh.
  rewrite Hs, Hh, Hb. repeat split.
  - f_equal. lia.
  - apply list_insert_id.
    apply list_lookup_lookup_total_lt. exact Hc.
Qed.

(** The one way to fail with a valid size: every chunk is full.  The
    call returns null, sets the [full] flag and leaves the bitmaps and
    the data region as they were. *)
Lemma malloc_exhausted tpool size :
  pool_wf cfg tpool -> tpool_full tpool = 0 ->
  0 < size <= tpool_step tpool * MAXN ->
  (forall j, (j < length (body_words tpool))%nat ->
             body_words tpool !!! j = 2 ^ MAXN - 1) ->
  let m := tb_tpool_malloc cfg tpool size in
  snd m = TB_NULL /\ tpool_full (fst m) = 1 /\
  head_words (fst m) = head_words tpool /\
  body_words (fst m) = body_words tpool /\
  data_bytes (fst m) = data_bytes tpool.
Proof.
  intros Hwf Hfull Hsz Hall. cbv zeta.
  pose proof (wf_step _ _ Hwf) as Hstep.
  pose proof (wf_body_len _ _ Hwf) as Hlen.
  pose proof (malloc_through_find cfg tpool size (wf_magic _ _ Hwf)
                ltac:(lia) Hsz Hfull) as Hm.
  cbv zeta in Hm.
  assert (Hr : tb_tpool_malloc_find cfg tpool size = (tpool, TB_NULL)).
  { unfold tb_tpool_malloc_find. rewrite take_ge by lia.
    destruct (find_chunk_spec cfg (body_words tpool) (wf_body_words _ _ Hwf))
      as (Hle & _ & Hne).
    destruct (Z.ltb_spec (Z.of_nat (find_chunk cfg (body_words tpool)))
                (tpool_maxn tpool)) as [Hlt | Hge]; [| reflexivity].
    exfalso. apply Hne; [lia |]. apply Hall. lia. }
  rewrite Hr in Hm. simpl in Hm.
  destruct Hm as (Hs & Hh & Hb & Hd & _ & Hf).
  repeat split; assumption.
Qed.

End MallocResult.

(** ** Pools made by [tb_tpool_init] *)

Section Reachable.

Variable cfg : platform.

Local Abbreviation MAXN := (TB_TPOOL_BLOCK_MAXN cfg).

(** Every pool reached from [tb_tpool_init] is well formed. *)
Lemma init_run_wf data size align tpool ops :
  0 < data -> size < 2 ^ MAXN ->
  tb_tpool_init cfg data size align = Some tpool ->
  pool_wf cfg (fst (run cfg ops (tpool, []))).
Proof.
  intros Hd Hsz Hinit.
  destruct (init_wf cfg data size align tpool Hd Hsz Hinit) as (Hwf & _).
  apply run_wf. exact Hwf.
Qed.


(** On a CPU whose shift loses the bits shifted out, that is every
    sequence of calls. *)
Lemma request_defined_shifted_out tpool o :
  shift_rule cfg = BitsShiftedOut ->
  match o with Malloc size => 0 <= size | _ => True end ->
  request_defined cfg tpool o.
Proof.
  intros Hrule. destruct o as [size | data |]; simpl; auto.
  intros Hsz. split; [exact Hsz |]. intros _. right. exact Hrule.
Qed.

End Reachable.

(** * The claims of the specification *)

Section Claims.

Variable cfg : platform.

Local Abbreviation MAXN := (TB_TPOOL_BLOCK_MAXN cfg).

(** C1: the specification says that a request of valid size on a pool not
    marked full fails when the first chunk that is not full has no run of
    the needed free blocks: the [full] flag is set and null is returned.
    The code does neither.  The test [tb_check_return_val (blkn, TB_NULL)]
    after the loop reads [blkn], which the loop never changes, so the call
    returns an address and leaves [full] clear; whenever the mask is
    defined the loop ends at offset [MAXN] and the address is that of the
    first block after the chunk. *)
Theorem malloc_no_fit_returns_block tpool size c :
  pool_wf cfg tpool -> tpool_full tpool = 0 ->
  0 < size <= tpool_step tpool * MAXN ->
  first_free_chunk cfg tpool c ->
  (forall b, 0 <= b ->
     free_run cfg (body_words tpool !!! c) b (blocks_needed tpool size)
     = false) ->
  let m := tb_tpool_malloc cfg tpool size in
  snd m <> TB_NULL /\
  tpool_full (fst m) = 0 /\
  (mask_defined cfg (blocks_needed tpool size) ->
   snd m = tpool_data tpool
           + (Z.of_nat c + 1) * MAXN * tpool_step tpool).
Proof.
  intros Hwf Hfull Hsz Hc Hnone. cbv zeta.
  pose proof (malloc_reaches cfg tpool size c Hwf Hfull Hsz Hc) as Hr.
  cbv zeta in Hr. destruct Hr as (Hs & Hnn & Hf & _).
  split; [exact Hnn |]. split; [exact Hf |].
  intros Hm. rewrite Hs. rewrite mask_ones.
  - destruct (find_blki_fit cfg tpool size c Hwf Hsz (proj1 Hc)) as [_ Hno].
    rewrite (Hno Hnone).
    rewrite offset_small
      by (try assumption; try apply Hc; pose proof (MAXN_pos cfg); lia).
    f_equal. ring.
  - apply blocks_needed_range; [pose proof (wf_step _ _ Hwf); lia | exact Hsz].
  - exact Hm.
Qed.

(** C2: the specification says that a successful allocation of [k] blocks,
    [k <= MAXN], sets body bits [b .. b+k-1] and head bit [b] of the first
    chunk that is not full, [b] being the lowest offset of [k] free
    blocks.  For [k = MAXN] on a CPU that takes the shift count modulo the
    width the code sets no body bit: in an entirely free chunk, where
    [b = 0], the call returns the address of the chunk and every body bit
    of the chunk is still clear. *)
Theorem malloc_whole_chunk_sets_no_body_bit tpool c :
  shift_rule cfg = CountModWidth ->
  pool_wf cfg tpool -> tpool_full tpool = 0 ->
  first_free_chunk cfg tpool c ->
  lowest_fit cfg (body_words tpool !!! c) MAXN 0 ->
  let m := tb_tpool_malloc cfg tpool (tpool_step tpool * MAXN) in
  blocks_needed tpool (tpool_step tpool * MAXN) = MAXN /\
  snd m = tpool_data tpool + (Z.of_nat c * MAXN + 0) * tpool_step tpool /\
  forall i, 0 <= i < MAXN ->
    Z.testbit (body_words (fst m) !!! c) i = false.
Proof.
  intros Hrule Hwf Hfull Hc (_ & Hrun & _). cbv zeta.
  pose proof (wf_step _ _ Hwf) as Hstep.
  pose proof (MAXN_pos cfg) as HM.
  pose proof (malloc_whole_chunk_masked cfg tpool c Hrule Hwf Hfull Hc) as Hr.
  cbv zeta in Hr. destruct Hr as (Hs & Hb & _).
  split; [apply blocks_needed_interval; lia |].
  split; [rewrite Hs; f_equal; ring |].
  intros i Hi. rewrite Hb.
  apply free_run_spec in Hrun as [_ Hrun]; [| lia].
  apply (Hrun i Hi).
Qed.

(** C3: the specification says that after [tb_tpool_init] and any calls,
    also an allocation of the largest size, every head bit is a body bit.
    On a CPU that takes the shift count modulo the width the code breaks
    this with the first allocation of the largest size on a new pool: head
    bit 0 of chunk 0 is set and body bit 0 is not. *)
Theorem malloc_whole_chunk_head_without_body data size align tpool :
  shift_rule cfg = CountModWidth ->
  0 < data -> size < 2 ^ MAXN ->
  tb_tpool_init cfg data size align = Some tpool ->
  ~ head_in_body (fst (tb_tpool_malloc cfg tpool (tpool_step tpool * MAXN))).
Proof.
  intros Hrule Hd Hsz Hinit Hinv.
  destruct (init_wf cfg data size align tpool Hd Hsz Hinit)
    as (Hwf & _ & Hfull).
  destruct (init_some cfg data size align tpool Hinit) as (_ & Hp).
  pose proof (wf_maxn _ _ Hwf) as Hn.
  pose proof (wf_body_len _ _ Hwf) as Hbl.
  pose proof (wf_head_len _ _ Hwf) as Hhl.
  assert (Hb0 : body_words tpool !!! O = 0).
  { rewrite Hp. simpl. apply lookup_total_replicate_2.
    rewrite Hp in Hn. simpl in Hn. lia. }
  assert (Hc : first_free_chunk cfg tpool O).
  { split; [lia |]. split; [intros j Hj; lia |].
    rewrite Hb0. pose proof (pow_MAXN_pos cfg).
    destruct (MAXN_cases cfg) as [E | E]; rewrite E; lia. }
  pose proof (malloc_whole_chunk_masked cfg tpool O Hrule Hwf Hfull Hc) as Hr.
  cbv zeta in Hr. destruct Hr as (_ & Hb & Hh).
  pose proof (malloc_frame cfg tpool (tpool_step tpool * MAXN)) as Hfr.
  cbv zeta in Hfr. destruct Hfr as ((_ & _ & _ & Hmaxn & _) & _).
  specialize (Hinv O 0 ltac:(rewrite <- Hmaxn; lia) ltac:(lia)).
  rewrite Hh, Hb, Hb0 in Hinv.
  rewrite list_lookup_total_insert_eq in Hinv by lia.
  rewrite Z.lor_spec, Z.bits_0 in Hinv.
  change (Z.testbit 1 0) with true in Hinv.
  rewrite orb_true_r in Hinv. specialize (Hinv eq_refl). discriminate.
Qed.

(** C5: after a successful [tb_tpool_init] the chunk count is the quotient
    of the bytes left from the start of the head bitmap to the end of the
    buffer by [2 * sizeof (tb_size_t) + MAXN * step], with
    [MAXN = 8 * sizeof (tb_size_t)]; and [tb_tpool_init] fails when this
    quotient is zero.  The end of the buffer is [data + size]: aligning
    [data] moves the start and shrinks the size by the same amount
    ([init_end]). *)
Theorem init_chunk_count data size align :
  MAXN = 8 * sizeof_size_t cfg /\
  (forall tpool,
     tb_tpool_init cfg data size align = Some tpool ->
     tpool_head tpool = init_head cfg data align /\
     tpool_step tpool = init_step cfg align /\
     tpool_maxn tpool
     = (data + size - tpool_head tpool)
       / (2 * sizeof_size_t cfg + MAXN * tpool_step tpool)) /\
  ((data + size - init_head cfg data align)
   / (2 * sizeof_size_t cfg + MAXN * init_step cfg align) = 0 ->
   tb_tpool_init cfg data size align = None).
Proof.
  split; [apply MAXN_bytes |]. split.
  - intros tpool Hinit.
    destruct (init_some cfg data size align tpool Hinit) as (_ & ->).
    simpl. rewrite init_quotient_eq. auto.
  - intros Hq. rewrite <- init_quotient_eq in Hq.
    rewrite init_unfold. cbv zeta. rewrite Hq. simpl.
    repeat match goal with
           | |- (if ?c then None else _) = None =>
               destruct c; [reflexivity |]
           end.
    reflexivity.
Qed.

(** C6: after a successful [tb_tpool_init] on a buffer of [size] bytes at
    [data], the data region of [maxn * MAXN * step] bytes is no larger
    than the buffer, and the head bitmap, the body bitmap and the data
    region follow one another without overlap inside
    [[data, data + size)]. *)
Theorem init_layout data size align tpool :
  size < 2 ^ MAXN ->
  tb_tpool_init cfg data size align = Some tpool ->
  let n := tpool_maxn tpool in
  0 < n /\
  n * MAXN * tpool_step tpool <= size /\
  data <= tpool_head tpool /\
  tpool_head tpool + n * sizeof_size_t cfg <= tpool_body tpool /\
  tpool_body tpool + n * sizeof_size_t cfg <= tpool_data tpool /\
  tpool_data tpool + n * MAXN * tpool_step tpool <= data + size /\
  length (head_words tpool) = Z.to_nat n /\
  length (body_words tpool) = Z.to_nat n /\
  length (data_bytes tpool) = Z.to_nat (n * MAXN * tpool_step tpool).
Proof.
  intros Hsz Hinit. cbv zeta.
  pose proof (init_bounds cfg data size align tpool Hsz Hinit) as Hb.
  cbv zeta in Hb.
  destruct Hb as (Hn & Hs & HnD & Hh & Hbody & Hdata & Hend & Hlt).
  destruct (init_some cfg data size align tpool Hinit) as (_ & Hp).
  assert (Hws : 0 < sizeof_size_t cfg).
  { unfold sizeof_size_t. destruct (BITBYTE_cases cfg); lia. }
  replace (tpool_maxn tpool * MAXN * tpool_step tpool)
    with (tpool_maxn tpool * tpool_step tpool * MAXN) by ring.
  repeat split; try lia; rewrite Hp; simpl; apply length_replicate.
Qed.

(** C7 (as amended): once the [full] flag is set, every [tb_tpool_malloc]
    returns null at once and leaves the pool as it is, also after calls of
    [tb_tpool_free], which is a stub and leaves the flag set; the flag
    stays set through any sequence of allocations and frees, and
    [tb_tpool_clear] is what clears it. *)
Theorem full_until_clear tpool ops live :
  tpool_full tpool <> 0 ->
  Forall (fun o => o <> Clear) ops ->
  (forall size, tb_tpool_malloc cfg tpool size = (tpool, TB_NULL)) /\
  (forall data, tb_tpool_free tpool data = (tpool, true)) /\
  fst (run cfg ops (tpool, live)) = tpool /\
  (tpool_magic tpool = TB_TPOOL_MAGIC ->
   tpool_full (tb_tpool_clear cfg tpool) = 0).
Proof.
  intros Hfull Hops.
  assert (Hm : forall size, tb_tpool_malloc cfg tpool size = (tpool, TB_NULL)).
  { intros size. unfold tb_tpool_malloc.
    destruct (negb (tpool_magic tpool =? TB_TPOOL_MAGIC)); [reflexivity |].
    destruct (size =? 0); [reflexivity |].
    destruct (negb (size <=? _)); [reflexivity |].
    replace (tpool_full tpool =? 0) with false
      by (symmetry; apply Z.eqb_neq; exact Hfull).
    reflexivity. }
  split; [exact Hm |]. split; [reflexivity |]. split.
  - revert live. induction Hops as [| o ops Ho Hops IH]; intros live;
      [reflexivity |].
    simpl. destruct o as [size | data |]; [| | congruence].
    + simpl. rewrite Hm. simpl. apply IH.
    + simpl. apply IH.
  - intros Hmagic. unfold tb_tpool_clear.
    rewrite Hmagic, Z.eqb_refl. reflexivity.
Qed.

(** C8: [tb_tpool_malloc] with size 0, or with a size above
    [step * MAXN], returns null and leaves the whole pool as it is: both
    bitmaps, the data region, the [full] flag and the diagnostics.  The
    result does not depend on the bitmaps: nothing was scanned. *)
Theorem malloc_invalid_size tpool size :
  0 <= tpool_step tpool < 128 ->
  size = 0 \/ tpool_step tpool * MAXN < size ->
  tb_tpool_malloc cfg tpool size = (tpool, TB_NULL).
Proof.
  intros Hstep Hsz. unfold tb_tpool_malloc.
  destruct (negb (tpool_magic tpool =? TB_TPOOL_MAGIC)); [reflexivity |].
  destruct (Z.eqb_spec size 0); [reflexivity |].
  destruct Hsz as [? | Hsz]; [contradiction |].
  rewrite wrap_small
    by (unfold is_word; destruct (MAXN_cases cfg) as [E | E]; rewrite E; lia).
  replace (size <=? tpool_step tpool * MAXN) with false
    by (symmetry; apply Z.leb_gt; exact Hsz).
  reflexivity.
Qed.

(** C9: on an initialised pool [tb_tpool_clear] zeroes the whole data
    region and every word of the head and of the body bitmap and resets
    the [full] flag, and it keeps the layout: the chunk count, the step,
    the alignment, the magic marker and the three region pointers. *)
Theorem clear_zeroes tpool :
  pool_wf cfg tpool ->
  let c := tb_tpool_clear cfg tpool in
  data_bytes c
  = replicate (Z.to_nat (tpool_maxn tpool * MAXN * tpool_step tpool)) 0 /\
  head_words c = replicate (Z.to_nat (tpool_maxn tpool)) 0 /\
  body_words c = replicate (Z.to_nat (tpool_maxn tpool)) 0 /\
  tpool_full c = 0 /\
  same_layout tpool c.
Proof.
  intros Hwf. cbv zeta.
  destruct (clear_regions cfg tpool Hwf) as (Hh & Hb & Hd).
  rewrite Hh, Hb, Hd.
  rewrite (wf_head_len _ _ Hwf), (wf_body_len _ _ Hwf), (wf_data_len _ _ Hwf).
  replace (tpool_maxn tpool * MAXN * tpool_step tpool)
    with (tpool_maxn tpool * tpool_step tpool * MAXN) by ring.
  repeat split; try apply clear_layout.
  unfold tb_tpool_clear. rewrite (wf_magic _ _ Hwf), Z.eqb_refl. reflexivity.
Qed.

(** C10: in this snapshot [tb_tpool_free] is a stub: for every pool and
    every pointer it returns true and leaves the whole pool as it is, so
    it rejects no pointer and makes no block free again: an allocation
    after it behaves as it would have before. *)
Theorem free_is_stub tpool data :
  tb_tpool_free tpool data = (tpool, true) /\
  forall size,
    tb_tpool_malloc cfg (fst (tb_tpool_free tpool data)) size
    = tb_tpool_malloc cfg tpool size.
Proof. split; reflexivity. Qed.

End Claims.

(** * The claims on the sample pools *)

Lemma sample_pool_init : tb_tpool_init x86_64 4096 4096 16 = Some sample_pool.
Proof. vm_compute. reflexivity. Qed.

Lemma sample_pool_arm32_init :
  tb_tpool_init arm32 4096 4096 16 = Some sample_pool_arm32.
Proof. vm_compute. reflexivity. Qed.

Lemma sample_pool_wf : pool_wf x86_64 sample_pool.
Proof.
  apply (init_wf x86_64 4096 4096 16);
    [lia | vm_compute; reflexivity | exact sample_pool_init].
Qed.

Lemma sample_pool_first_chunk : first_free_chunk x86_64 sample_pool 0.
Proof.
  split; [simpl; lia |]. split; [intros j Hj; lia |].
  vm_compute. discriminate.
Qed.

Lemma sample_pool_33_malloc :
  tb_tpool_malloc x86_64 sample_pool 528 = (sample_pool_33, 4192).
Proof. vm_compute. reflexivity. Qed.

Lemma sample_pool_33_wf : pool_wf x86_64 sample_pool_33.
Proof.
  change sample_pool_33 with (fst (sample_pool_33, 4192)).
  rewrite <- sample_pool_33_malloc. apply malloc_wf, sample_pool_wf.
Qed.

Lemma sample_pool_33_first_chunk : first_free_chunk x86_64 sample_pool_33 0.
Proof.
  split; [simpl; lia |]. split; [intros j Hj; lia |].
  vm_compute. discriminate.
Qed.

(** Blocks 0 to 32 of chunk 0 are taken: no 33 free blocks are left in
    the chunk. *)
Lemma sample_pool_33_no_fit b :
  0 <= b ->
  free_run x86_64 (body_words sample_pool_33 !!! 0%nat) b
           (blocks_needed sample_pool_33 528) = false.
Proof.
  intros Hb.
  change (blocks_needed sample_pool_33 528) with 33.
  change (body_words sample_pool_33 !!! 0%nat) with (Z.ones 33).
  destruct (free_run x86_64 (Z.ones 33) b 33) eqn:E; [| reflexivity].
  apply free_run_spec in E as [Hle Hrun]; [| lia].
  change (TB_TPOOL_BLOCK_MAXN x86_64) with 64 in Hle.
  specialize (Hrun (32 - b) ltac:(lia)).
  replace (b + (32 - b)) with 32 in Hrun by lia.
  vm_compute in Hrun. discriminate.
Qed.

Lemma malloc_no_fit_returns_block_witness :
  let m := tb_tpool_malloc x86_64 sample_pool_33 528 in
  snd m <> TB_NULL /\
  tpool_full (fst m) = 0 /\
  (mask_defined x86_64 (blocks_needed sample_pool_33 528) ->
   snd m = tpool_data sample_pool_33
           + (Z.of_nat 0 + 1) * TB_TPOOL_BLOCK_MAXN x86_64
             * tpool_step sample_pool_33).
Proof.
  apply (malloc_no_fit_returns_block x86_64 sample_pool_33 528 0).
  - exact sample_pool_33_wf.
  - reflexivity.
  - vm_compute. split; [reflexivity | discriminate].
  - exact sample_pool_33_first_chunk.
  - exact sample_pool_33_no_fit.
Defined.

Lemma malloc_whole_chunk_sets_no_body_bit_witness :
  let m :=
    tb_tpool_malloc x86_64 sample_pool
      (tpool_step sample_pool * TB_TPOOL_BLOCK_MAXN x86_64) in
  blocks_needed sample_pool
                (tpool_step sample_pool * TB_TPOOL_BLOCK_MAXN x86_64)
  = TB_TPOOL_BLOCK_MAXN x86_64 /\
  snd m = tpool_data sample_pool
          + (Z.of_nat 0 * TB_TPOOL_BLOCK_MAXN x86_64 + 0)
            * tpool_step sample_pool /\
  forall i, 0 <= i < TB_TPOOL_BLOCK_MAXN x86_64 ->
    Z.testbit (body_words (fst m) !!! 0%nat) i = false.
Proof.
  apply (malloc_whole_chunk_sets_no_body_bit x86_64 sample_pool 0).
  - reflexivity.
  - exact sample_pool_wf.
  - reflexivity.
  - exact sample_pool_first_chunk.
  - split; [lia |]. split; [vm_compute; reflexivity | intros b' Hb'; lia].
Defined.

Lemma malloc_whole_chunk_head_without_body_witness :
  ~ head_in_body
      (fst (tb_tpool_malloc x86_64 sample_pool
              (tpool_step sample_pool * TB_TPOOL_BLOCK_MAXN x86_64))).
Proof.
  apply (malloc_whole_chunk_head_without_body x86_64 4096 4096 16 sample_pool).
  - reflexivity.
  - lia.
  - vm_compute. reflexivity.
  - exact sample_pool_init.
Defined.

(** C4: the specification says that the block runs of two allocations
    that are live at the same time never overlap.  The code breaks this:
    after a first allocation of 33 blocks, the second and the third
    request of 33 blocks find no room in chunk 0, which is not full, and
    both get the address of the first block after chunk 0, with no bit
    set for them; the same on [arm32] with 17 blocks of a chunk of 32. *)
Theorem live_allocations_overlap :
  (let st := run x86_64 [Malloc 528; Malloc 528; Malloc 528]
                 (sample_pool, []) in
   snd st = [(4192, 528); (5216, 528); (5216, 528)] /\
   live_disjoint (fst st) (snd st) = false) /\
  (let st := run arm32 [Malloc 272; Malloc 272; Malloc 272]
                 (sample_pool_arm32, []) in
   snd st = [(4192, 272); (4704, 272); (4704, 272)] /\
   live_disjoint (fst st) (snd st) = false).
Proof. vm_compute. repeat split; reflexivity. Qed.

Lemma init_layout_witness :
  let n := tpool_maxn sample_pool in
  0 < n /\
  n * TB_TPOOL_BLOCK_MAXN x86_64 * tpool_step sample_pool <= 4096 /\
  4096 <= tpool_head sample_pool /\
  tpool_head sample_pool + n * sizeof_size_t x86_64 <= tpool_body sample_pool /\
  tpool_body sample_pool + n * sizeof_size_t x86_64 <= tpool_data sample_pool /\
  tpool_data sample_pool
  + n * TB_TPOOL_BLOCK_MAXN x86_64 * tpool_step sample_pool <= 4096 + 4096 /\
  length (head_words sample_pool) = Z.to_nat n /\
  length (body_words sample_pool) = Z.to_nat n /\
  length (data_bytes sample_pool)
  = Z.to_nat (n * TB_TPOOL_BLOCK_MAXN x86_64 * tpool_step sample_pool).
Proof.
  apply (init_layout x86_64 4096 4096 16 sample_pool).
  - vm_compute. reflexivity.
  - exact sample_pool_init.
Defined.

(** The claim C7 as the specification states it fails on the code: on the
    full sample pool, [tb_tpool_free] of the first block leaves the [full]
    flag set, and the next allocation still returns null. *)
Lemma free_leaves_full_set :
  tpool_full sample_pool_full = 1 /\
  tpool_full (fst (tb_tpool_free sample_pool_full 4192)) = 1 /\
  snd (tb_tpool_malloc x86_64 (fst (tb_tpool_free sample_pool_full 4192)) 16)
  = TB_NULL.
Proof. vm_compute. repeat split; reflexivity. Qed.

Lemma full_until_clear_witness :
  (forall size,
     tb_tpool_malloc x86_64 sample_pool_full size
     = (sample_pool_full, TB_NULL)) /\
  (forall data, tb_tpool_free sample_pool_full data
                = (sample_pool_full, true)) /\
  fst (run x86_64 [Malloc 16; Free 4192; Malloc 32] (sample_pool_full, []))
  = sample_pool_full /\
  (tpool_magic sample_pool_full = TB_TPOOL_MAGIC ->
   tpool_full (tb_tpool_clear x86_64 sample_pool_full) = 0).
Proof.
  apply (full_until_clear x86_64 sample_pool_full
                          [Malloc 16; Free 4192; Malloc 32] []).
  - vm_compute. discriminate.
  - repeat constructor; discriminate.
Defined.

Lemma malloc_invalid_size_witness :
  tb_tpool_malloc x86_64 sample_pool_33 1025 = (sample_pool_33, TB_NULL).
Proof.
  apply (malloc_invalid_size x86_64 sample_pool_33 1025).
  - simpl. lia.
  - right. vm_compute. reflexivity.
Defined.

Lemma clear_zeroes_witness :
  let c := tb_tpool_clear x86_64 sample_pool_33 in
  data_bytes c
  = replicate (Z.to_nat (tpool_maxn sample_pool_33
                         * TB_TPOOL_BLOCK_MAXN x86_64
                         * tpool_step sample_pool_33)) 0 /\
  head_words c = replicate (Z.to_nat (tpool_maxn sample_pool_33)) 0 /\
  body_words c = replicate (Z.to_nat (tpool_maxn sample_pool_33)) 0 /\
  tpool_full c = 0 /\
  same_layout sample_pool_33 c.
Proof. apply (clear_zeroes x86_64 sample_pool_33), sample_pool_33_wf. Defined.

(** * Further properties of the allocator *)

Section Packing.

Variable cfg : platform.

Local Abbreviation MAXN := (TB_TPOOL_BLOCK_MAXN cfg).

(** In a chunk whose blocks below [b] are taken and whose other blocks are
    free, offset [b] is the lowest at which [k] free blocks start. *)
Lemma lowest_fit_ones b k :
  0 <= b -> 0 < k -> b + k <= MAXN ->
  lowest_fit cfg (Z.ones b) k b.
Proof.
  intros Hb Hk Hbk. split; [exact Hb |]. split.
  - apply free_run_spec; [lia |]. split; [exact Hbk |].
    intros j Hj. apply Z.ones_spec_high. lia.
  - intros b' Hb'.
    destruct (free_run cfg (Z.ones b) b' k) eqn:E; [| reflexivity].
    apply free_run_spec in E as [_ E]; [| lia].
    specialize (E 0 ltac:(lia)).
    rewrite Z.add_0_r, Z.ones_spec_low in E by lia. discriminate.
Qed.

Lemma ones_not_full b : 0 <= b < MAXN -> Z.ones b <> 2 ^ MAXN - 1.
Proof.
  intros Hb. rewrite Z.ones_equiv.
  assert (2 ^ b < 2 ^ MAXN) by (apply Z.pow_lt_mono_r; lia).
  lia.
Qed.

(** X1: first fit.  For a request of [k] blocks on a pool that is not
    marked full, when [b] is the lowest offset of [k] free blocks in the
    first chunk [c] that is not full, and the mask is computed without a
    shift by the full width, [tb_tpool_malloc] returns the address of block
    [b] of chunk [c]; the [size] bytes at that address lie inside chunk [c]
    of the data region; body bits [b .. b+k-1] and head bit [b] of the
    chunk are set and no other bit of either bitmap changes. *)
Theorem malloc_first_fit_in_chunk tpool size k c b :
  pool_wf cfg tpool -> tpool_full tpool = 0 ->
  0 < k <= MAXN ->
  tpool_step tpool * (k - 1) < size <= tpool_step tpool * k ->
  mask_defined cfg k ->
  first_free_chunk cfg tpool c ->
  lowest_fit cfg (body_words tpool !!! c) k b ->
  let m := tb_tpool_malloc cfg tpool size in
  let chunk := tpool_data tpool + Z.of_nat c * MAXN * tpool_step tpool in
  snd m = chunk + b * tpool_step tpool /\
  chunk <= snd m /\
  snd m + size <= chunk + MAXN * tpool_step tpool /\
  chunk + MAXN * tpool_step tpool
  <= tpool_data tpool + tpool_maxn tpool * MAXN * tpool_step tpool /\
  (forall i, 0 <= i ->
     Z.testbit (body_words (fst m) !!! c) i
     = Z.testbit (body_words tpool !!! c) i || ((b <=? i) && (i <? b + k))) /\
  (forall i, 0 <= i ->
     Z.testbit (head_words (fst m) !!! c) i
     = Z.testbit (head_words tpool !!! c) i || (i =? b)) /\
  (forall c' : nat, c' <> c ->
     body_words (fst m) !!! c' = body_words tpool !!! c' /\
     head_words (fst m) !!! c' = head_words tpool !!! c').
Proof.
  intros Hwf Hfull Hk Hsz Hm Hc Hfit. cbv zeta.
  pose proof (wf_step _ _ Hwf) as Hstep.
  pose proof (wf_body_len _ _ Hwf) as Hlen.
  pose proof (wf_maxn _ _ Hwf) as Hn.
  assert (Hkk : blocks_needed tpool size = k)
    by (apply blocks_needed_interval; lia).
  assert (Hsz' : 0 < size <= tpool_step tpool * MAXN) by nia.
  rewrite <- Hkk in Hm, Hfit.
  pose proof (malloc_first_fit cfg tpool size c b Hwf Hfull Hsz' Hm Hc Hfit)
    as Hr.
  cbv zeta in Hr. rewrite Hkk in Hr, Hfit.
  destruct Hr as (Hs & Hb & Hh & Ho & _ & _).
  destruct Hfit as (Hb0 & Hrun & _).
  apply free_run_spec in Hrun as [Hbk _]; [| lia].
  destruct Hc as (Hc & _).
  assert (Hc1 : Z.of_nat c + 1 <= tpool_maxn tpool) by lia.
  rewrite Hs.
  repeat split; try assumption; try apply Ho; try assumption.
  - ring.
  - nia.
  - nia.
  - nia.
Qed.

(** X2: allocations pack.  When the blocks below [b] of the first chunk
    that is not full are exactly the taken ones, a request of [k] blocks
    that still fits in the chunk gets block [b], and afterwards the blocks
    below [b + k] are exactly the taken ones: successive requests get
    successive addresses. *)
Theorem malloc_packs_chunk tpool size c b :
  pool_wf cfg tpool -> tpool_full tpool = 0 ->
  0 < size <= tpool_step tpool * MAXN ->
  mask_defined cfg (blocks_needed tpool size) ->
  first_free_chunk cfg tpool c ->
  0 <= b ->
  body_words tpool !!! c = Z.ones b ->
  b + blocks_needed tpool size <= MAXN ->
  let m := tb_tpool_malloc cfg tpool size in
  snd m = tpool_data tpool + (Z.of_nat c * MAXN + b) * tpool_step tpool /\
  body_words (fst m) !!! c = Z.ones (b + blocks_needed tpool size) /\
  head_words (fst m) !!! c = Z.lor (head_words tpool !!! c) (2 ^ b).
Proof.
  intros Hwf Hfull Hsz Hm Hc Hb Hw Hbk. cbv zeta.
  pose proof (wf_step _ _ Hwf) as Hstep.
  pose proof (blocks_needed_range cfg tpool size ltac:(lia) Hsz) as Hk.
  assert (Hfit : lowest_fit cfg (body_words tpool !!! c)
                   (blocks_needed tpool size) b)
    by (rewrite Hw; apply lowest_fit_ones; lia).
  pose proof (malloc_first_fit cfg tpool size c b Hwf Hfull Hsz Hm Hc Hfit)
    as Hr.
  cbv zeta in Hr. destruct Hr as (Hs & Hbody & Hhead & _).
  split; [exact Hs |]. split.
  - apply Z.bits_inj'. intros i Hi.
    rewrite Hbody, Hw by assumption.
    rewrite !Z.testbit_ones_nonneg by lia. lia.
  - apply Z.bits_inj'. intros i Hi.
    rewrite Hhead by assumption.
    rewrite Z.lor_spec, Z.pow2_bits_eqb by lia.
    f_equal. apply Z.eqb_sym.
Qed.

(** The search reads the size only through the number of blocks. *)
Lemma malloc_find_blocks tpool s1 s2 :
  0 < tpool_step tpool ->
  blocks_needed tpool s1 = blocks_needed tpool s2 ->
  tb_tpool_malloc_find cfg tpool s1 = tb_tpool_malloc_find cfg tpool s2.
Proof.
  intros Hs Hk. unfold tb_tpool_malloc_find.
  rewrite !tb_align_blocks by assumption. rewrite Hk. reflexivity.
Qed.

(** X3: size rounding.  Two valid sizes that need the same number of
    blocks, that is two sizes in the same interval
    [(step*(k-1), step*k]], get the same address and leave the same
    bitmaps, data region and [full] flag. *)
Theorem malloc_same_blocks tpool s1 s2 :
  pool_wf cfg tpool -> tpool_full tpool = 0 ->
  0 < s1 <= tpool_step tpool * MAXN ->
  0 < s2 <= tpool_step tpool * MAXN ->
  blocks_needed tpool s1 = blocks_needed tpool s2 ->
  let m1 := tb_tpool_malloc cfg tpool s1 in
  let m2 := tb_tpool_malloc cfg tpool s2 in
  snd m1 = snd m2 /\
  head_words (fst m1) = head_words (fst m2) /\
  body_words (fst m1) = body_words (fst m2) /\
  data_bytes (fst m1) = data_bytes (fst m2) /\
  tpool_full (fst m1) = tpool_full (fst m2).
Proof.
  intros Hwf Hfull H1 H2 Hk. cbv zeta.
  pose proof (wf_step _ _ Hwf) as Hstep.
  pose proof (malloc_through_find cfg tpool s1 (wf_magic _ _ Hwf)
                ltac:(lia) H1 Hfull) as Hm1.
  pose proof (malloc_through_find cfg tpool s2 (wf_magic _ _ Hwf)
                ltac:(lia) H2 Hfull) as Hm2.
  cbv zeta in Hm1, Hm2.
  rewrite (malloc_find_blocks tpool s1 s2 ltac:(lia) Hk) in Hm1.
  destruct Hm1 as (-> & -> & -> & -> & _ & ->).
  destruct Hm2 as (-> & -> & -> & -> & _ & ->).
  repeat split; reflexivity.
Qed.

End Packing.

Section Frames.

Variable cfg : platform.

Local Abbreviation MAXN := (TB_TPOOL_BLOCK_MAXN cfg).

Lemma insert_lor_monotone (l : list Z) (c j : nat) x i :
  Z.testbit (l !!! j) i = true ->
  Z.testbit (<[c := Z.lor (l !!! c) x]> l !!! j) i = true.
Proof.
  intros H. rewrite list_lookup_total_insert.
  destruct (decide (c = j /\ (c < length l)%nat)) as [[-> _] | _];
    [| exact H].
  rewrite Z.lor_spec, H. reflexivity.
Qed.

(** The bitmaps after [tb_tpool_malloc]: as they were, or with bits added
    to one word of each. *)
Lemma malloc_bitmaps_shape tpool size :
  (head_words (fst (tb_tpool_malloc cfg tpool size)) = head_words tpool /\
   body_words (fst (tb_tpool_malloc cfg tpool size)) = body_words tpool)
  \/ exists (c : nat) x y,
       head_words (fst (tb_tpool_malloc cfg tpool size))
       = <[c := Z.lor (head_words tpool !!! c) x]> (head_words tpool) /\
       body_words (fst (tb_tpool_malloc cfg tpool size))
       = <[c := Z.lor (body_words tpool !!! c) y]> (body_words tpool).
Proof.
  unfold tb_tpool_malloc.
  destruct (negb (tpool_magic tpool =? TB_TPOOL_MAGIC)); [left; auto |].
  destruct (size =? 0); [left; auto |].
  destruct (negb (size <=? _)); [left; auto |].
  destruct (negb (tpool_full tpool =? 0)); [left; auto |].
  destruct (malloc_find_shape cfg tpool size)
    as [-> | (c & bits & blki & _ & _ & ->)].
  - left. destruct (TB_DEBUG cfg); simpl; auto.
  - right. exists c, (shl cfg 1 blki), (shl cfg bits blki).
    destruct (TB_DEBUG cfg), (_ =? 0); simpl; auto.
Qed.

Lemma malloc_body_kept tpool size (j : nat) i :
  Z.testbit (body_words tpool !!! j) i = true ->
  Z.testbit (body_words (fst (tb_tpool_malloc cfg tpool size)) !!! j) i
  = true.
Proof.
  destruct (malloc_bitmaps_shape tpool size)
    as [[_ Hb] | (c & x & y & _ & Hb)]; rewrite Hb;
    [auto | apply insert_lor_monotone].
Qed.

(** X4: what an allocation never does.  Whatever the pool and the size,
    [tb_tpool_malloc] keeps the layout and the data region, clears no bit
    of either bitmap, and changes the words of at most one chunk. *)
Theorem malloc_only_sets_bits tpool size :
  let m := tb_tpool_malloc cfg tpool size in
  same_layout tpool (fst m) /\
  data_bytes (fst m) = data_bytes tpool /\
  (forall (j : nat) i,
     (Z.testbit (body_words tpool !!! j) i = true ->
      Z.testbit (body_words (fst m) !!! j) i = true) /\
     (Z.testbit (head_words tpool !!! j) i = true ->
      Z.testbit (head_words (fst m) !!! j) i = true)) /\
  exists c : nat, forall j : nat, j <> c ->
    body_words (fst m) !!! j = body_words tpool !!! j /\
    head_words (fst m) !!! j = head_words tpool !!! j.
Proof.
  cbv zeta.
  destruct (malloc_frame cfg tpool size) as (Hl & Hd & _).
  split; [exact Hl |]. split; [exact Hd |].
  destruct (malloc_bitmaps_shape tpool size)
    as [[Hh Hb] | (c & x & y & Hh & Hb)]; rewrite Hh, Hb.
  - split; [auto |]. exists O. auto.
  - split.
    + intros j i. split; apply insert_lor_monotone.
    + exists c. intros j Hj.
      rewrite !list_lookup_total_insert_ne by auto. auto.
Qed.

(** A handle whose magic marker is wrong is refused by every call. *)
Lemma dead_handle e :
  tpool_magic e <> TB_TPOOL_MAGIC ->
  (forall size, tb_tpool_malloc cfg e size = (e, TB_NULL)) /\
  tb_tpool_clear cfg e = e /\
  tb_tpool_exit cfg e = e.
Proof.
  intros Hm. apply Z.eqb_neq in Hm.
  unfold tb_tpool_malloc, tb_tpool_clear, tb_tpool_exit.
  rewrite Hm. simpl. auto.
Qed.

Lemma exit_eq tpool :
  pool_wf cfg tpool ->
  tb_tpool_exit cfg tpool
  = Pool 0 0 0 0 0 0 0 0 0 info_zero
         (replicate (length (head_words tpool)) 0)
         (replicate (length (body_words tpool)) 0)
         (replicate (length (data_bytes tpool)) 0).
Proof.
  intros Hwf.
  destruct (clear_regions cfg tpool Hwf) as (Hh & Hb & Hd).
  unfold tb_tpool_exit.
  rewrite (wf_magic _ _ Hwf), Z.eqb_refl. simpl.
  rewrite Hh, Hb, Hd. reflexivity.
Qed.

(** X5: after [tb_tpool_exit] the handle is dead.  On an initialised pool
    [tb_tpool_exit] zeroes the header and, through [tb_tpool_clear], both
    bitmaps and the data region; afterwards every [tb_tpool_malloc]
    returns null, and [tb_tpool_malloc], [tb_tpool_clear] and a second
    [tb_tpool_exit] leave everything as it is. *)
Theorem exit_kills_handle tpool :
  pool_wf cfg tpool ->
  let e := tb_tpool_exit cfg tpool in
  tpool_magic e = 0 /\ tpool_maxn e = 0 /\ tpool_full e = 0 /\
  tpool_head e = TB_NULL /\ tpool_body e = TB_NULL /\
  tpool_data e = TB_NULL /\
  head_words e = replicate (length (head_words tpool)) 0 /\
  body_words e = replicate (length (body_words tpool)) 0 /\
  data_bytes e = replicate (length (data_bytes tpool)) 0 /\
  (forall size, tb_tpool_malloc cfg e size = (e, TB_NULL)) /\
  tb_tpool_clear cfg e = e /\
  tb_tpool_exit cfg e = e.
Proof.
  intros Hwf. cbv zeta.
  assert (Hdead : tpool_magic (tb_tpool_exit cfg tpool) <> TB_TPOOL_MAGIC)
    by (rewrite exit_eq by assumption; simpl; discriminate).
  destruct (dead_handle _ Hdead) as (Hm & Hc & He).
  rewrite exit_eq in * by assumption. simpl.
  repeat split; try reflexivity; assumption.
Qed.

End Frames.

Section Lifecycle.

Variable cfg : platform.

Local Abbreviation MAXN := (TB_TPOOL_BLOCK_MAXN cfg).

(** [tb_tpool_clear] on an initialised pool, field by field. *)
Lemma clear_eq tpool :
  pool_wf cfg tpool ->
  tb_tpool_clear cfg tpool
  = Pool (tpool_magic tpool) (tpool_align tpool) (tpool_step tpool) 0
         (tpool_head tpool) (tpool_body tpool) (tpool_maxn tpool) 0
         (tpool_data tpool)
         (if TB_DEBUG cfg then info_zero else tpool_info tpool)
         (replicate (Z.to_nat (tpool_maxn tpool)) 0)
         (replicate (Z.to_nat (tpool_maxn tpool)) 0)
         (replicate (Z.to_nat (tpool_maxn tpool * tpool_step tpool * MAXN))
                    0).
Proof.
  intros Hwf. unfold tb_tpool_clear.
  rewrite (wf_magic _ _ Hwf), Z.eqb_refl. simpl.
  pose proof (wf_head _ _ Hwf). pose proof (wf_body _ _ Hwf).
  pose proof (wf_data _ _ Hwf).
  replace (tpool_head tpool =? 0) with false
    by (symmetry; apply Z.eqb_neq; lia).
  replace (tpool_body tpool =? 0) with false
    by (symmetry; apply Z.eqb_neq; lia).
  replace (tpool_data tpool =? 0) with false
    by (symmetry; apply Z.eqb_neq; lia).
  rewrite data_size_wrap by assumption.
  rewrite !memset0_all by (eapply wf_head_len || eapply wf_body_len
                          || eapply wf_data_len; eassumption).
  rewrite (wf_head_len _ _ Hwf), (wf_body_len _ _ Hwf),
    (wf_data_len _ _ Hwf).
  reflexivity.
Qed.

Lemma malloc_pred_info tpool size :
  tpool_pred (fst (tb_tpool_malloc cfg tpool size)) = tpool_pred tpool /\
  (TB_DEBUG cfg = false ->
   tpool_info (fst (tb_tpool_malloc cfg tpool size)) = tpool_info tpool).
Proof.
  unfold tb_tpool_malloc.
  destruct (negb (tpool_magic tpool =? TB_TPOOL_MAGIC)); [auto |].
  destruct (size =? 0); [auto |].
  destruct (negb (size <=? _)); [auto |].
  destruct (negb (tpool_full tpool =? 0)); [auto |].
  destruct (malloc_find_shape cfg tpool size)
    as [-> | (c & bits & blki & _ & _ & ->)];
    destruct (TB_DEBUG cfg); simpl; try destruct (_ =? 0); simpl;
    split; try reflexivity; discriminate.
Qed.

Lemma same_layout_trans p q r :
  same_layout p q -> same_layout q r -> same_layout p r.
Proof.
  unfold same_layout. intros (?&?&?&?&?&?&?) (?&?&?&?&?&?&?).
  repeat split; congruence.
Qed.

(** What holds of every pool reached from a pool with these properties. *)
Lemma run_reach ops : forall st,
  pool_wf cfg (fst st) ->
  tpool_pred (fst st) = 0 ->
  (TB_DEBUG cfg = false -> tpool_info (fst st) = info_zero) ->
  same_layout (fst st) (fst (run cfg ops st)) /\
  pool_wf cfg (fst (run cfg ops st)) /\
  tpool_pred (fst (run cfg ops st)) = 0 /\
  (TB_DEBUG cfg = false -> tpool_info (fst (run cfg ops st)) = info_zero).
Proof.
  induction ops as [| o ops IH]; intros st Hwf Hp Hi; simpl.
  - split; [unfold same_layout; repeat split; reflexivity |]. auto.
  - assert (Hstep : tpool_pred (fst (exec cfg st o)) = 0 /\
                    (TB_DEBUG cfg = false ->
                     tpool_info (fst (exec cfg st o)) = info_zero)).
    { destruct st as [tpool live]. simpl in *.
      destruct o as [size | data |]; simpl.
      - pose proof (malloc_pred_info tpool size) as (H1 & H2).
        destruct (tb_tpool_malloc cfg tpool size) as [q d]. simpl in *.
        split; [congruence |]. intros Hd. rewrite H2; auto.
      - auto.
      - rewrite clear_eq by assumption. simpl. split; [reflexivity |].
        intros Hd. rewrite Hd. auto. }
    destruct Hstep as (Hp' & Hi').
    destruct (IH (exec cfg st o) (exec_wf cfg st o Hwf) Hp' Hi')
      as (Hl & Hw & Hpp & Hii).
    split; [eapply same_layout_trans; [apply exec_layout | exact Hl] |].
    auto.
Qed.

(** X6: [tb_tpool_clear] undoes everything.  Whatever allocations, frees
    and clears were made on a pool since [tb_tpool_init], a
    [tb_tpool_clear] brings back exactly the pool that [tb_tpool_init]
    returned: header, bitmaps, data region and diagnostics. *)
Theorem clear_restores_init data size align tpool ops :
  0 < data -> size < 2 ^ MAXN ->
  tb_tpool_init cfg data size align = Some tpool ->
  tb_tpool_clear cfg (fst (run cfg ops (tpool, []))) = tpool.
Proof.
  intros Hd Hsz Hinit.
  destruct (init_wf cfg data size align tpool Hd Hsz Hinit) as (Hwf & _ & _).
  destruct (init_some cfg data size align tpool Hinit) as (_ & Hp).
  assert (Hpred : tpool_pred tpool = 0) by (rewrite Hp; reflexivity).
  assert (Hinfo : tpool_info tpool = info_zero) by (rewrite Hp; reflexivity).
  destruct (run_reach ops (tpool, []) Hwf Hpred (fun _ => Hinfo))
    as ((H1 & H2 & H3 & H4 & H5 & H6 & H7) & Hw & _ & Hi).
  simpl in H1, H2, H3, H4, H5, H6, H7.
  rewrite clear_eq by assumption.
  rewrite <- H1, <- H2, <- H3, <- H4, <- H5, <- H6, <- H7.
  replace (if TB_DEBUG cfg then info_zero
           else tpool_info (fst (run cfg ops (tpool, []))))
    with info_zero
    by (destruct (TB_DEBUG cfg) eqn:E; [reflexivity | symmetry; auto]).
  rewrite Hp. reflexivity.
Qed.

Lemma packed_word w b k :
  0 <= b -> 0 <= k ->
  (forall i, 0 <= i ->
     Z.testbit w i = Z.testbit (Z.ones b) i || ((b <=? i) && (i <? b + k))) ->
  w = Z.ones (b + k).
Proof.
  intros Hb Hk H. apply Z.bits_inj'. intros i Hi.
  rewrite H by assumption. rewrite !Z.testbit_ones_nonneg by lia. lia.
Qed.

(** X7: [tb_tpool_clear] makes the whole pool available again.  On every
    initialised pool, also one marked full, the first allocation after
    [tb_tpool_clear] returns the start of the data region and takes the
    first blocks of chunk 0 (for every size whose mask is computed
    without a shift by the full width). *)
Theorem malloc_after_clear tpool size :
  pool_wf cfg tpool ->
  0 < size <= tpool_step tpool * MAXN ->
  mask_defined cfg (blocks_needed tpool size) ->
  let m := tb_tpool_malloc cfg (tb_tpool_clear cfg tpool) size in
  snd m = tpool_data tpool /\
  body_words (fst m) !!! O = Z.ones (blocks_needed tpool size) /\
  head_words (fst m) !!! O = 1 /\
  tpool_full (fst m) = 0.
Proof.
  intros Hwf Hsz Hm. cbv zeta.
  pose proof (wf_step _ _ Hwf) as Hstep.
  pose proof (wf_maxn _ _ Hwf) as Hn.
  pose proof (blocks_needed_range cfg tpool size ltac:(lia) Hsz) as Hk.
  pose proof (clear_wf cfg tpool Hwf) as Hcwf.
  pose proof (MAXN_pos cfg) as HM.
  set (c := tb_tpool_clear cfg tpool) in *.
  assert (Hc : c = tb_tpool_clear cfg tpool) by reflexivity.
  rewrite clear_eq in Hc by assumption.
  assert (Hstep' : tpool_step c = tpool_step tpool)
    by (rewrite Hc; reflexivity).
  assert (Hdata : tpool_data c = tpool_data tpool) by (rewrite Hc; reflexivity).
  assert (Hfull : tpool_full c = 0) by (rewrite Hc; reflexivity).
  assert (Hb0 : body_words c !!! O = Z.ones 0).
  { rewrite Hc. simpl. apply lookup_total_replicate_2. lia. }
  assert (Hh0 : head_words c !!! O = 0).
  { rewrite Hc. simpl. apply lookup_total_replicate_2. lia. }
  assert (Hkc : blocks_needed c size = blocks_needed tpool size)
    by (unfold blocks_needed; rewrite Hstep'; reflexivity).
  assert (Hfirst : first_free_chunk cfg c O).
  { split; [rewrite (wf_body_len _ _ Hcwf), Hc; simpl; lia |].
    split; [intros j Hj; lia |].
    rewrite Hb0. apply ones_not_full. lia. }
  assert (Hfit : lowest_fit cfg (body_words c !!! O) (blocks_needed c size) 0).
  { rewrite Hb0, Hkc. apply lowest_fit_ones; lia. }
  pose proof (malloc_first_fit cfg c size O 0 Hcwf Hfull
                ltac:(rewrite Hstep'; exact Hsz)
                ltac:(rewrite Hkc; exact Hm) Hfirst Hfit) as Hr.
  cbv zeta in Hr. rewrite Hkc, Hdata, Hstep' in Hr.
  destruct Hr as (Hs & Hbody & Hhead & _ & _ & Hf).
  split; [rewrite Hs; simpl; ring |]. split; [| split; [| exact Hf]].
  - apply (packed_word _ 0 (blocks_needed tpool size)); [lia | lia |].
    intros i Hi. rewrite Hbody, Hb0 by assumption. reflexivity.
  - apply Z.bits_inj'. intros i Hi.
    rewrite Hhead, Hh0, Z.bits_0 by assumption. simpl.
    change 1 with (2 ^ 0). rewrite Z.pow2_bits_eqb by lia. apply Z.eqb_sym.
Qed.

End Lifecycle.

Section Alignment.

Variable cfg : platform.

Local Abbreviation MAXN := (TB_TPOOL_BLOCK_MAXN cfg).

(** The alignment [tb_tpool_init] accepts is 4, 8, 16, 32 or 64. *)
Lemma init_align_cases align :
  init_align cfg align <= TB_TPOOL_ALIGN_MAXN ->
  In (init_align cfg align) [4; 8; 16; 32; 64].
Proof.
  unfold init_align, TB_TPOOL_ALIGN_MAXN. rewrite tb_max_spec.
  intros Hle. pose proof (BITBYTE_cases cfg) as HB.
  destruct (align =? 0).
  - rewrite Z.max_id. simpl. lia.
  - unfold tb_align_pow2 in *.
    pose proof (Z.log2_up_nonneg align) as He.
    set (e := Z.log2_up align) in *.
    assert (He6 : e <= 6).
    { destruct (Z.le_gt_cases e 6) as [? | Hgt]; [assumption |].
      assert (2 ^ 7 <= 2 ^ e) by (apply Z.pow_le_mono_r; lia).
      change (2 ^ 7) with 128 in *. lia. }
    assert (Hc : e = 0 \/ e = 1 \/ e = 2 \/ e = 3 \/ e = 4 \/ e = 5 \/ e = 6)
      by lia.
    simpl.
    destruct Hc as [-> | [-> | [-> | [-> | [-> | [-> | ->]]]]]];
      destruct HB as [-> | ->]; simpl; lia.
Qed.

Lemma tb_align_multiple x b : b <> 0 -> tb_align x b mod b = 0.
Proof. intros Hb. unfold tb_align. apply Z.mod_mul. exact Hb. Qed.

(** The result of [tb_tpool_malloc]: null, or the start of the data
    region plus a multiple of the step, reduced modulo the word. *)
Lemma malloc_result_shape tpool size :
  snd (tb_tpool_malloc cfg tpool size) = TB_NULL
  \/ exists x,
       snd (tb_tpool_malloc cfg tpool size)
       = tpool_data tpool + wrap cfg (x * tpool_step tpool).
Proof.
  unfold tb_tpool_malloc.
  destruct (negb (tpool_magic tpool =? TB_TPOOL_MAGIC)); [left; auto |].
  destruct (size =? 0); [left; auto |].
  destruct (negb (size <=? _)); [left; auto |].
  destruct (negb (tpool_full tpool =? 0)); [left; auto |].
  destruct (malloc_find_shape cfg tpool size)
    as [-> | (c & bits & blki & _ & _ & ->)].
  - left. reflexivity.
  - right. eexists. reflexivity.
Qed.

Lemma wrap_multiple a x :
  0 < a -> 2 ^ MAXN mod a = 0 -> x mod a = 0 -> wrap cfg x mod a = 0.
Proof.
  intros Ha HM Hx. unfold wrap.
  pose proof (pow_MAXN_pos cfg) as Hp.
  apply Z.mod_divide in HM, Hx; try lia.
  apply Z.mod_divide; [lia |].
  rewrite Z.mod_eq by lia.
  apply Z.divide_sub_r; [exact Hx |].
  apply Z.divide_mul_l. exact HM.
Qed.

Lemma run_layout ops : forall st,
  same_layout (fst st) (fst (run cfg ops st)).
Proof.
  induction ops as [| o ops IH]; intros st; simpl.
  - unfold same_layout. repeat split; reflexivity.
  - eapply same_layout_trans; [apply exec_layout | apply IH].
Qed.

(** X8: alignment of the blocks.  On a pool made by [tb_tpool_init] and
    used in any way since, every address [tb_tpool_malloc] returns is a
    multiple of the pool's alignment, and its distance from the start of
    the data region is a multiple of the step. *)
Theorem malloc_aligned data size align tpool ops n :
  0 < data -> size < 2 ^ MAXN ->
  tb_tpool_init cfg data size align = Some tpool ->
  let r := snd (tb_tpool_malloc cfg (fst (run cfg ops (tpool, []))) n) in
  r <> TB_NULL ->
  r mod tpool_align tpool = 0 /\
  (r - tpool_data tpool) mod tpool_step tpool = 0.
Proof.
  intros Hd Hsz Hinit. cbv zeta. intros Hr.
  destruct (init_some cfg data size align tpool Hinit)
    as ((_ & Ha & _) & Hp).
  pose proof (init_align_cases align (proj2 Ha)) as Hcases.
  destruct (init_step_range cfg align (proj2 Ha)) as (_ & Hs & _).
  pose proof (run_layout ops (tpool, [])) as Hlay. simpl in Hlay.
  destruct Hlay as (_ & _ & Hstep & _ & _ & _ & Hdata).
  destruct (malloc_result_shape (fst (run cfg ops (tpool, []))) n)
    as [H0 | (x & Hx)]; [contradiction |].
  rewrite Hx, <- Hstep, <- Hdata.
  assert (Halign : tpool_align tpool = init_align cfg align)
    by (rewrite Hp; reflexivity).
  assert (Hst : tpool_step tpool = Z.max (init_align cfg align) 16)
    by (rewrite Hp; simpl; exact Hs).
  assert (Hdat : tpool_data tpool mod init_align cfg align = 0).
  { rewrite Hp. simpl. apply tb_align_multiple.
    pose proof (BITBYTE_cases cfg). lia. }
  rewrite Halign, Hst in *.
  set (a := init_align cfg align) in *.
  assert (HM : 2 ^ MAXN mod a = 0 /\ 2 ^ MAXN mod Z.max a 16 = 0 /\
               Z.max a 16 mod a = 0 /\ 0 < a).
  { simpl in Hcases.
    destruct (MAXN_cases cfg) as [E | E]; rewrite E;
      destruct Hcases as [<- | [<- | [<- | [<- | [<- | []]]]]];
      repeat split; reflexivity. }
  destruct HM as (HM1 & HM2 & HM3 & Ha0).
  split.
  - rewrite Z.add_mod, Hdat by lia.
    rewrite wrap_multiple; try assumption; [reflexivity |].
    rewrite Z.mul_mod, HM3 by lia.
    rewrite Z.mul_0_r. apply Z.mod_0_l. lia.
  - replace (tpool_data tpool + wrap cfg (x * Z.max a 16) - tpool_data tpool)
      with (wrap cfg (x * Z.max a 16)) by ring.
    apply wrap_multiple; [lia | assumption |].
    apply Z.mod_mul. lia.
Qed.

(** Where a successful [tb_tpool_init] puts the header, and the room it
    needs. *)
Lemma init_room data size align tpool :
  tb_tpool_init cfg data size align = Some tpool ->
  data <= init_base cfg data align /\
  init_base cfg data align + sizeof_tpool cfg <= tpool_head tpool /\
  0 < tpool_maxn tpool /\
  sizeof_tpool cfg
  + tpool_maxn tpool * (2 * sizeof_size_t cfg + MAXN * tpool_step tpool)
  <= size.
Proof.
  intros Hinit.
  destruct (init_some cfg data size align tpool Hinit)
    as ((_ & Ha & _ & _ & Hh & Hq & _) & Hp).
  destruct (init_step_range cfg align (proj2 Ha)) as (Hbf & Hs & Hr).
  pose proof (BITBYTE_cases cfg) as HB.
  rewrite Hp. simpl. unfold TB_TPOOL_ALIGN_MAXN in Ha.
  set (a := init_align cfg align) in *.
  assert (Hbase : data <= init_base cfg data align).
  { unfold init_base. fold a.
    pose proof (tb_align_ge data a ltac:(lia)). lia. }
  assert (Hhead : init_base cfg data align + sizeof_tpool cfg
                  <= init_head cfg data align).
  { unfold init_head. fold a. rewrite Hbf. apply tb_align_ge. lia. }
  assert (HD : 0 < 2 * sizeof_size_t cfg + MAXN * init_step cfg align).
  { pose proof (MAXN_pos cfg). unfold sizeof_size_t. nia. }
  assert (HnD : init_quotient cfg data size align
                * (2 * sizeof_size_t cfg + MAXN * init_step cfg align)
                <= data + size - init_head cfg data align).
  { rewrite init_quotient_eq, Z.mul_comm. apply Z.mul_div_le. exact HD. }
  assert (Hn : 0 <= init_quotient cfg data size align).
  { rewrite init_quotient_eq. apply Z.div_pos; lia. }
  repeat split; try lia; assumption.
Qed.

(** X9: the header and the price of the bookkeeping.  After a successful
    [tb_tpool_init] the alignment is between the word size and 64, the
    step is the larger of the alignment and 16, the header starts at an
    aligned address inside the buffer and ends before the head bitmap, and
    the buffer holds at least the header and, for each chunk, two bitmap
    words and [MAXN] blocks. *)
Theorem init_header data size align tpool :
  tb_tpool_init cfg data size align = Some tpool ->
  TB_CPU_BITBYTE cfg <= tpool_align tpool <= 64 /\
  tpool_step tpool = Z.max (tpool_align tpool) 16 /\
  data <= init_base cfg data align /\
  init_base cfg data align mod tpool_align tpool = 0 /\
  init_base cfg data align + sizeof_tpool cfg <= tpool_head tpool /\
  sizeof_tpool cfg
  + tpool_maxn tpool * (2 * sizeof_size_t cfg + MAXN * tpool_step tpool)
  <= size.
Proof.
  intros Hinit.
  destruct (init_room data size align tpool Hinit) as (H1 & H2 & _ & H3).
  destruct (init_some cfg data size align tpool Hinit)
    as ((_ & Ha & _) & Hp).
  destruct (init_step_range cfg align (proj2 Ha)) as (_ & Hs & _).
  pose proof (BITBYTE_cases cfg) as HB.
  unfold TB_TPOOL_ALIGN_MAXN in Ha.
  assert (Hal : tpool_align tpool = init_align cfg align)
    by (rewrite Hp; reflexivity).
  assert (Hst : tpool_step tpool = init_step cfg align)
    by (rewrite Hp; reflexivity).
  rewrite Hal, Hst, Hs.
  repeat split; try lia; try assumption.
  unfold init_base.
  replace (data + (tb_align data (init_align cfg align) - data))
    with (tb_align data (init_align cfg align)) by ring.
  apply tb_align_multiple. lia.
Qed.

(** X10: what [tb_tpool_init] refuses.  A null buffer, an empty buffer, a
    requested alignment above 64, and a buffer too small for the header,
    two bitmap words and one chunk of the smallest blocks all make
    [tb_tpool_init] return null. *)
Theorem init_rejects data size align :
  data = 0 \/ size = 0 \/ 64 < align \/
  size < sizeof_tpool cfg + 2 * sizeof_size_t cfg + MAXN * 16 ->
  tb_tpool_init cfg data size align = None.
Proof.
  intros H.
  destruct (tb_tpool_init cfg data size align) as [tpool |] eqn:Hinit;
    [exfalso | reflexivity].
  destruct (init_room data size align tpool Hinit) as (_ & _ & Hn & Hroom).
  destruct (init_some cfg data size align tpool Hinit)
    as ((Hd & Ha & Hs & _) & Hp).
  assert (Hst : tpool_step tpool = init_step cfg align)
    by (rewrite Hp; reflexivity).
  rewrite Hst in Hroom.
  destruct H as [H | [H | [H | H]]].
  - contradiction.
  - rewrite init_unfold in Hinit. cbv zeta in Hinit. subst size.
    rewrite orb_true_r in Hinit. discriminate.
  - unfold TB_TPOOL_ALIGN_MAXN in Ha.
    assert (align <= init_align cfg align); [| lia].
    unfold init_align. rewrite tb_max_spec.
    replace (align =? 0) with false by (symmetry; apply Z.eqb_neq; lia).
    unfold tb_align_pow2.
    pose proof (Z.log2_up_spec align ltac:(lia)). lia.
  - pose proof (MAXN_pos cfg).
    assert (2 * sizeof_size_t cfg + MAXN * 16
            <= tpool_maxn tpool
               * (2 * sizeof_size_t cfg + MAXN * init_step cfg align));
      [| lia].
    assert (0 < sizeof_size_t cfg)
      by (unfold sizeof_size_t; destruct (BITBYTE_cases cfg); lia).
    assert (MAXN * 16 <= MAXN * init_step cfg align)
      by (apply Z.mul_le_mono_nonneg_l; lia).
    set (D := 2 * sizeof_size_t cfg + MAXN * init_step cfg align) in *.
    assert (1 * D <= tpool_maxn tpool * D)
      by (apply Z.mul_le_mono_nonneg_r; lia).
    lia.
Qed.

End Alignment.

Section Diagnostics.

Variable cfg : platform.

Local Abbreviation MAXN := (TB_TPOOL_BLOCK_MAXN cfg).

Lemma malloc_info_inv tpool size :
  info_used (tpool_info tpool) = info_real (tpool_info tpool) ->
  info_used (tpool_info tpool) <= info_peak (tpool_info tpool) ->
  let i := tpool_info (fst (tb_tpool_malloc cfg tpool size)) in
  info_used i = info_real i /\ info_used i <= info_peak i.
Proof.
  intros Hr Hp. cbv zeta. unfold tb_tpool_malloc.
  destruct (negb (tpool_magic tpool =? TB_TPOOL_MAGIC)); [auto |].
  destruct (size =? 0); [auto |].
  destruct (negb (size <=? _)); [auto |].
  destruct (negb (tpool_full tpool =? 0)); [auto |].
  destruct (malloc_find_shape cfg tpool size)
    as [-> | (c & bits & blki & _ & _ & ->)];
    destruct (TB_DEBUG cfg); simpl; auto;
    destruct (_ =? 0); simpl; auto.
  rewrite Hr. split; [reflexivity |].
  destruct (Z.gtb_spec
              (wrap cfg (info_real (tpool_info tpool)
                         + tb_align size (tpool_step tpool)))
              (info_peak (tpool_info tpool))); lia.
Qed.

(** X11: the diagnostics.  On a pool made by [tb_tpool_init] and used in
    any way since, the bytes in use never exceed the peak, and they equal
    the rounded bytes handed out, since nothing is ever given back; in a
    build without [TB_DEBUG] the counters stay zero. *)
Theorem diagnostics_invariant data size align tpool ops :
  0 < data -> size < 2 ^ MAXN ->
  tb_tpool_init cfg data size align = Some tpool ->
  let i := tpool_info (fst (run cfg ops (tpool, []))) in
  info_used i = info_real i /\
  info_used i <= info_peak i /\
  (TB_DEBUG cfg = false -> i = info_zero).
Proof.
  intros Hd Hsz Hinit. cbv zeta.
  destruct (init_wf cfg data size align tpool Hd Hsz Hinit) as (Hwf & _ & _).
  destruct (init_some cfg data size align tpool Hinit) as (_ & Hp).
  assert (Hpred : tpool_pred tpool = 0) by (rewrite Hp; reflexivity).
  assert (Hinfo : tpool_info tpool = info_zero) by (rewrite Hp; reflexivity).
  destruct (run_reach cfg ops (tpool, []) Hwf Hpred (fun _ => Hinfo))
    as (_ & _ & _ & Hi).
  assert (Hinv : forall st,
            pool_wf cfg (fst st) ->
            info_used (tpool_info (fst st))
            = info_real (tpool_info (fst st)) ->
            info_used (tpool_info (fst st))
            <= info_peak (tpool_info (fst st)) ->
            info_used (tpool_info (fst (run cfg ops st)))
            = info_real (tpool_info (fst (run cfg ops st))) /\
            info_used (tpool_info (fst (run cfg ops st)))
            <= info_peak (tpool_info (fst (run cfg ops st)))).
  { clear. induction ops as [| o ops IH]; intros st Hwf Hr Hpk; simpl;
      [auto |].
    apply IH; [apply exec_wf, Hwf | |];
      destruct st as [tpool live]; simpl in *;
      destruct o as [size | data |]; simpl; try assumption.
    - pose proof (malloc_info_inv tpool size Hr Hpk) as [H _].
      destruct (tb_tpool_malloc cfg tpool size). exact H.
    - rewrite clear_eq by assumption. simpl.
      destruct (TB_DEBUG cfg); [reflexivity | assumption].
    - pose proof (malloc_info_inv tpool size Hr Hpk) as [_ H].
      destruct (tb_tpool_malloc cfg tpool size). exact H.
    - rewrite clear_eq by assumption. simpl.
      destruct (TB_DEBUG cfg); [simpl; lia | assumption]. }
  destruct (Hinv (tpool, []) Hwf) as (H1 & H2);
    [simpl; rewrite Hinfo; reflexivity | simpl; rewrite Hinfo; simpl; lia |].
  auto.
Qed.

End Diagnostics.

Section Disjoint.

Variable cfg : platform.

Local Abbreviation MAXN := (TB_TPOOL_BLOCK_MAXN cfg).

(** A pool has a first chunk that is not full, or every chunk is full. *)
Lemma first_free_chunk_or_full tpool :
  pool_wf cfg tpool ->
  (exists c, first_free_chunk cfg tpool c)
  \/ (forall j, (j < length (body_words tpool))%nat ->
                body_words tpool !!! j = 2 ^ MAXN - 1).
Proof.
  intros Hwf.
  destruct (find_chunk_spec cfg (body_words tpool) (wf_body_words _ _ Hwf))
    as (Hle & Hfull & Hfree).
  destruct (Nat.lt_ge_cases (find_chunk cfg (body_words tpool))
                            (length (body_words tpool))) as [Hlt | Hge].
  - left. exists (find_chunk cfg (body_words tpool)).
    split; [exact Hlt |]. split; [exact Hfull | apply Hfree, Hlt].
  - right. intros j Hj. apply Hfull. lia.
Qed.

(** X12: when an allocation fails.  With a valid size on a pool that is
    not marked full, [tb_tpool_malloc] returns null exactly when every
    body word is all ones; it then sets the [full] flag and leaves the
    bitmaps and the data region as they were.  A chunk that is not full
    always yields an address, whether or not it has room. *)
Theorem malloc_null_iff_all_full tpool size :
  pool_wf cfg tpool -> tpool_full tpool = 0 ->
  0 < size <= tpool_step tpool * MAXN ->
  let m := tb_tpool_malloc cfg tpool size in
  (snd m = TB_NULL <->
   forall j, (j < length (body_words tpool))%nat ->
             body_words tpool !!! j = 2 ^ MAXN - 1) /\
  (snd m = TB_NULL ->
   tpool_full (fst m) = 1 /\
   head_words (fst m) = head_words tpool /\
   body_words (fst m) = body_words tpool /\
   data_bytes (fst m) = data_bytes tpool).
Proof.
  intros Hwf Hfull Hsz. cbv zeta.
  destruct (first_free_chunk_or_full tpool Hwf) as [[c Hc] | Hall].
  - pose proof (malloc_reaches cfg tpool size c Hwf Hfull Hsz Hc) as Hr.
    cbv zeta in Hr. destruct Hr as (_ & Hnn & _).
    split; [| intros H; contradiction].
    split; [intros H; contradiction |].
    intros Hall. exfalso.
    destruct Hc as (Hlt & _ & Hfree). apply Hfree, Hall, Hlt.
  - pose proof (malloc_exhausted cfg tpool size Hwf Hfull Hsz Hall) as Hr.
    cbv zeta in Hr. destruct Hr as (Hs & Hr).
    split; [split; auto | intros _; exact Hr].
Qed.

(** *** Live allocations *)

Lemma block_run_layout p q a :
  same_layout p q -> block_run q a = block_run p a.
Proof.
  intros (_ & _ & Hs & _ & _ & _ & Hd). unfold block_run.
  rewrite Hs, Hd. reflexivity.
Qed.

Lemma live_disjoint_layout p q live :
  same_layout p q -> live_disjoint q live = live_disjoint p live.
Proof.
  intros (_ & _ & Hs & _ & _ & _ & Hd).
  induction live as [| a rest IH]; simpl; [reflexivity |].
  unfold block_run. rewrite IH, Hs, Hd. reflexivity.
Qed.

Lemma runs_overlap_sym r1 r2 : runs_overlap r1 r2 = runs_overlap r2 r1.
Proof. unfold runs_overlap. apply andb_comm. Qed.

Lemma live_disjoint_app p live a :
  live_disjoint p (live ++ [a])
  = live_disjoint p live
    && forallb (fun b => negb (runs_overlap (block_run p b) (block_run p a)))
               live.
Proof.
  induction live as [| x rest IH]; simpl; [reflexivity |].
  rewrite forallb_app, IH. simpl.
  rewrite (runs_overlap_sym (block_run p x) (block_run p a)).
  destruct (forallb _ rest), (runs_overlap _ _), (live_disjoint p rest);
    simpl; try reflexivity;
    destruct (forallb _ rest); reflexivity.
Qed.

Lemma forallb_filter {A} (f : A -> bool) (P : A -> Prop)
      `{forall x, Decision (P x)} l :
  forallb f l = true -> forallb f (filter P l) = true.
Proof.
  induction l as [| x l IH]; [auto |].
  cbn [forallb]. intros [Hx Hl]%andb_true_iff. rewrite filter_cons.
  destruct (decide (P x)); cbn [forallb]; [rewrite Hx |]; auto.
Qed.

Lemma live_disjoint_filter p (P : Z * Z -> Prop)
      `{forall x, Decision (P x)} (live : list (Z * Z)) :
  live_disjoint p live = true -> live_disjoint p (filter P live) = true.
Proof.
  induction live as [| x l IH]; [auto |].
  intros Hd. rewrite filter_cons.
  change (live_disjoint p (x :: l))
    with (forallb (fun b => negb (runs_overlap (block_run p x)
                                               (block_run p b))) l
          && live_disjoint p l) in Hd.
  apply andb_true_iff in Hd as [Hx Hl].
  destruct (decide (P x)); [| auto].
  change (forallb (fun b => negb (runs_overlap (block_run p x)
                                               (block_run p b)))
                  (filter P l)
          && live_disjoint p (filter P l) = true).
  rewrite IH by assumption. rewrite forallb_filter by assumption.
  reflexivity.
Qed.

Lemma live_marked_filter p (P : Z * Z -> Prop)
      `{forall x, Decision (P x)} (live : list (Z * Z)) :
  live_marked cfg p live -> live_marked cfg p (filter P live).
Proof.
  unfold live_marked. induction 1 as [| x l Hx Hl IH];
    [constructor |].
  rewrite filter_cons. destruct (decide (P x)); [constructor |]; assumption.
Qed.

(** Marks survive an allocation: the layout stays and no body bit is
    cleared. *)
Lemma live_marked_malloc tpool size live :
  live_marked cfg tpool live ->
  live_marked cfg (fst (tb_tpool_malloc cfg tpool size)) live.
Proof.
  unfold live_marked. intros Hm.
  destruct (malloc_frame cfg tpool size) as (Hl & _).
  eapply Forall_impl; [exact Hm |].
  intros a. cbv beta. rewrite (block_run_layout _ _ a Hl).
  intros (H1 & H2 & H3). repeat split; try assumption.
  intros g Hg. unfold block_taken. apply malloc_body_kept.
  apply H3, Hg.
Qed.

(** An address is returned only when the checks have passed. *)
Lemma malloc_nonnull_guards tpool size :
  tpool_step tpool * MAXN < 2 ^ MAXN -> 0 <= tpool_step tpool ->
  snd (tb_tpool_malloc cfg tpool size) <> TB_NULL ->
  tpool_full tpool = 0 /\ size <> 0 /\ size <= tpool_step tpool * MAXN.
Proof.
  intros Hcap Hs. unfold tb_tpool_malloc.
  destruct (negb (tpool_magic tpool =? TB_TPOOL_MAGIC));
    [simpl; congruence |].
  destruct (Z.eqb_spec size 0); [simpl; congruence |].
  rewrite wrap_small
    by (unfold is_word; pose proof (MAXN_pos cfg); nia).
  destruct (Z.leb_spec size (tpool_step tpool * MAXN)); simpl;
    [| congruence].
  destruct (Z.eqb_spec (tpool_full tpool) 0); simpl; [| congruence].
  auto.
Qed.

(** One served allocation keeps the live allocations marked and
    disjoint. *)
Lemma malloc_served_disjoint tpool size live :
  pool_wf cfg tpool -> served cfg tpool size ->
  live_marked cfg tpool live -> live_disjoint tpool live = true ->
  let st := exec cfg (tpool, live) (Malloc size) in
  live_marked cfg (fst st) (snd st) /\ live_disjoint (fst st) (snd st) = true.
Proof.
  intros Hwf (Hnn & Hserved) Hmark Hdis. cbv zeta. simpl.
  pose proof (live_marked_malloc tpool size live Hmark) as Hmark'.
  destruct (malloc_frame cfg tpool size) as (Hlay & _).
  pose proof (live_disjoint_layout _ _ live Hlay) as Hdl.
  pose proof (wf_step _ _ Hwf) as Hstep.
  pose proof (MAXN_pos cfg) as HM.
  destruct (tb_tpool_malloc cfg tpool size) as [q d] eqn:Em. simpl in *.
  destruct (Z.eqb_spec d TB_NULL) as [Hd | Hd]; simpl;
    [split; [exact Hmark' | rewrite Hdl; exact Hdis] |].
  assert (Hg : tpool_full tpool = 0 /\ size <> 0
               /\ size <= tpool_step tpool * MAXN).
  { apply malloc_nonnull_guards; [| lia | rewrite Em; exact Hd].
    destruct (MAXN_cases cfg) as [E | E]; rewrite E; lia. }
  destruct Hg as (Hfull & Hs0 & Hsle).
  assert (Hsz : 0 < size <= tpool_step tpool * MAXN) by lia.
  destruct (Hserved Hfull Hsz) as (Hmask & Hfit).
  destruct (first_free_chunk_or_full tpool Hwf) as [[c Hc] | Hall].
  2: { pose proof (malloc_exhausted cfg tpool size Hwf Hfull Hsz Hall) as Hr.
       cbv zeta in Hr. rewrite Em in Hr. simpl in Hr. tauto. }
  destruct (Hfit c Hc) as [b Hb].
  pose proof (malloc_first_fit cfg tpool size c b Hwf Hfull Hsz Hmask Hc Hb)
    as Hr.
  cbv zeta in Hr. rewrite Em in Hr. simpl in Hr.
  destruct Hr as (Hdq & Hbody & _).
  pose proof (blocks_needed_range cfg tpool size ltac:(lia) Hsz) as Hk.
  set (k := blocks_needed tpool size) in *.
  destruct Hb as (Hb0 & Hrun & _).
  apply free_run_spec in Hrun as [Hbk Hclear]; [| lia].
  assert (Hrunq : block_run q (d, size) = (Z.of_nat c * MAXN + b, k)).
  { rewrite (block_run_layout _ _ _ Hlay). unfold block_run. simpl.
    rewrite tb_align_blocks by lia. fold k. f_equal.
    rewrite Hdq.
    replace (tpool_data tpool + (Z.of_nat c * MAXN + b) * tpool_step tpool
             - tpool_data tpool)
      with ((Z.of_nat c * MAXN + b) * tpool_step tpool) by ring.
    apply Z.div_mul. lia. }
  assert (Hsplit : forall g,
            Z.of_nat c * MAXN + b <= g < Z.of_nat c * MAXN + b + k ->
            Z.to_nat (g / MAXN) = c /\ b <= g mod MAXN < b + k).
  { intros g Hg.
    assert (Hq : g / MAXN = Z.of_nat c).
    { symmetry. apply Z.div_unique with (r := g - Z.of_nat c * MAXN); lia. }
    assert (Hr : g mod MAXN = g - Z.of_nat c * MAXN).
    { symmetry. apply Z.mod_unique with (q := Z.of_nat c); lia. }
    rewrite Hq, Hr. lia. }
  split.
  - unfold live_marked. apply Forall_app. split; [exact Hmark' |].
    constructor; [| constructor].
    rewrite Hrunq. simpl. repeat split; try lia.
    intros g Hg. destruct (Hsplit g Hg) as (Hgc & Hgb).
    unfold block_taken. rewrite Hgc, Hbody by lia.
    apply orb_true_iff. right. lia.
  - rewrite live_disjoint_app, Hdl, Hdis. simpl.
    apply forallb_forall. intros a Ha.
    rewrite Hrunq, (block_run_layout _ _ a Hlay).
    unfold live_marked in Hmark.
    rewrite Forall_forall in Hmark.
    destruct (Hmark a ltac:(apply list_elem_of_In; exact Ha))
      as (Ha0 & Hak & Hat).
    apply negb_true_iff.
    destruct (runs_overlap (block_run tpool a) (Z.of_nat c * MAXN + b, k))
      eqn:Eo; [exfalso | reflexivity].
    unfold runs_overlap in Eo. cbn [fst snd] in Eo.
    apply andb_true_iff in Eo as [E1 E2].
    apply Z.ltb_lt in E1, E2.
    remember (Z.max (fst (block_run tpool a)) (Z.of_nat c * MAXN + b))
      as g eqn:Eg.
    specialize (Hat g ltac:(lia)).
    destruct (Hsplit g ltac:(lia)) as (Hgc & Hgb).
    unfold block_taken in Hat. rewrite Hgc in Hat.
    specialize (Hclear (g mod MAXN - b) ltac:(lia)).
    replace (b + (g mod MAXN - b)) with (g mod MAXN) in Hclear by ring.
    congruence.
Qed.

Lemma exec_served_disjoint st o :
  pool_wf cfg (fst st) ->
  match o with Malloc size => served cfg (fst st) size | _ => True end ->
  live_marked cfg (fst st) (snd st) ->
  live_disjoint (fst st) (snd st) = true ->
  live_marked cfg (fst (exec cfg st o)) (snd (exec cfg st o)) /\
  live_disjoint (fst (exec cfg st o)) (snd (exec cfg st o)) = true.
Proof.
  destruct st as [tpool live]. intros Hwf Ho Hm Hd.
  destruct o as [size | data |].
  - apply malloc_served_disjoint; assumption.
  - simpl in *. split;
      [apply live_marked_filter | apply live_disjoint_filter]; assumption.
  - simpl. split; [constructor | reflexivity].
Qed.

Lemma run_served_disjoint ops : forall st,
  pool_wf cfg (fst st) ->
  run_served cfg ops st ->
  live_marked cfg (fst st) (snd st) ->
  live_disjoint (fst st) (snd st) = true ->
  live_marked cfg (fst (run cfg ops st)) (snd (run cfg ops st)) /\
  live_disjoint (fst (run cfg ops st)) (snd (run cfg ops st)) = true.
Proof.
  induction ops as [| o ops IH]; intros st Hwf Hs Hm Hd; simpl; [auto |].
  destruct Hs as [Ho Hs].
  destruct (exec_served_disjoint st o Hwf Ho Hm Hd) as [Hm' Hd'].
  apply IH; try assumption. apply exec_wf, Hwf.
Qed.

(** A request is served when the blocks below [b] of chunk 0 are exactly
    the taken ones and the chunk still has room for it. *)
Lemma served_packed tpool size b :
  0 <= size -> 0 <= b ->
  body_words tpool !!! O = Z.ones b ->
  blocks_needed tpool size < MAXN ->
  b + blocks_needed tpool size <= MAXN ->
  16 <= tpool_step tpool ->
  served cfg tpool size.
Proof.
  intros Hsz Hb Hw Hk Hbk Hstep. split; [exact Hsz |].
  intros _ Hvalid. split; [left; exact Hk |].
  pose proof (blocks_needed_range cfg tpool size ltac:(lia) Hvalid) as Hk0.
  intros c (_ & Hfull & _). destruct c as [| c].
  - exists b. rewrite Hw. apply lowest_fit_ones; lia.
  - exfalso. specialize (Hfull O ltac:(lia)). rewrite Hw in Hfull.
    revert Hfull. apply ones_not_full. lia.
Qed.

(** X13: no two live allocations share a block, as long as every request
    is served.  After [tb_tpool_init] and any sequence of allocations,
    frees and clears in which each allocation that passes the checks finds
    room in the first chunk that is not full (and builds its mask without
    a shift by the full width), the block runs of the live allocations are
    pairwise disjoint and all their blocks are marked in the body
    bitmap. *)
Theorem live_disjoint_when_served data size align tpool ops :
  0 < data -> size < 2 ^ MAXN ->
  tb_tpool_init cfg data size align = Some tpool ->
  run_served cfg ops (tpool, []) ->
  let st := run cfg ops (tpool, []) in
  live_disjoint (fst st) (snd st) = true /\ live_marked cfg (fst st) (snd st).
Proof.
  intros Hd Hsz Hinit Hs. cbv zeta.
  destruct (init_wf cfg data size align tpool Hd Hsz Hinit) as (Hwf & _ & _).
  destruct (run_served_disjoint ops (tpool, []) Hwf Hs) as [Hm Hdis];
    [constructor | reflexivity |].
  auto.
Qed.

End Disjoint.

(** * The further properties on the sample pools *)

Lemma sample_pool_full_wf : pool_wf x86_64 sample_pool_full.
Proof. apply (run_wf x86_64 _ (sample_pool, [])), sample_pool_wf. Qed.

Lemma malloc_first_fit_in_chunk_witness :
  let m := tb_tpool_malloc x86_64 sample_pool_33 100 in
  let chunk :=
    tpool_data sample_pool_33
    + Z.of_nat 0 * TB_TPOOL_BLOCK_MAXN x86_64 * tpool_step sample_pool_33 in
  snd m = chunk + 33 * tpool_step sample_pool_33 /\
  chunk <= snd m /\
  snd m + 100
  <= chunk + TB_TPOOL_BLOCK_MAXN x86_64 * tpool_step sample_pool_33 /\
  chunk + TB_TPOOL_BLOCK_MAXN x86_64 * tpool_step sample_pool_33
  <= tpool_data sample_pool_33
     + tpool_maxn sample_pool_33 * TB_TPOOL_BLOCK_MAXN x86_64
       * tpool_step sample_pool_33 /\
  (forall i, 0 <= i ->
     Z.testbit (body_words (fst m) !!! 0%nat) i
     = Z.testbit (body_words sample_pool_33 !!! 0%nat) i
       || ((33 <=? i) && (i <? 33 + 7))) /\
  (forall i, 0 <= i ->
     Z.testbit (head_words (fst m) !!! 0%nat) i
     = Z.testbit (head_words sample_pool_33 !!! 0%nat) i || (i =? 33)) /\
  (forall c' : nat, c' <> 0%nat ->
     body_words (fst m) !!! c' = body_words sample_pool_33 !!! c' /\
     head_words (fst m) !!! c' = head_words sample_pool_33 !!! c').
Proof.
  apply (malloc_first_fit_in_chunk x86_64 sample_pool_33 100 7 0 33).
  - exact sample_pool_33_wf.
  - reflexivity.
  - change (TB_TPOOL_BLOCK_MAXN x86_64) with 64. lia.
  - simpl. lia.
  - left. change (TB_TPOOL_BLOCK_MAXN x86_64) with 64. lia.
  - exact sample_pool_33_first_chunk.
  - change (body_words sample_pool_33 !!! 0%nat) with (Z.ones 33).
    apply lowest_fit_ones; change (TB_TPOOL_BLOCK_MAXN x86_64) with 64; lia.
Defined.

Lemma malloc_packs_chunk_witness :
  let m := tb_tpool_malloc x86_64 sample_pool_33 100 in
  snd m = tpool_data sample_pool_33
          + (Z.of_nat 0 * TB_TPOOL_BLOCK_MAXN x86_64 + 33)
            * tpool_step sample_pool_33 /\
  body_words (fst m) !!! 0%nat
  = Z.ones (33 + blocks_needed sample_pool_33 100) /\
  head_words (fst m) !!! 0%nat
  = Z.lor (head_words sample_pool_33 !!! 0%nat) (2 ^ 33).
Proof.
  apply (malloc_packs_chunk x86_64 sample_pool_33 100 0 33).
  - exact sample_pool_33_wf.
  - reflexivity.
  - vm_compute. split; [reflexivity | discriminate].
  - left. vm_compute. reflexivity.
  - exact sample_pool_33_first_chunk.
  - lia.
  - reflexivity.
  - vm_compute. discriminate.
Defined.

Lemma malloc_same_blocks_witness :
  let m1 := tb_tpool_malloc x86_64 sample_pool 17 in
  let m2 := tb_tpool_malloc x86_64 sample_pool 32 in
  snd m1 = snd m2 /\
  head_words (fst m1) = head_words (fst m2) /\
  body_words (fst m1) = body_words (fst m2) /\
  data_bytes (fst m1) = data_bytes (fst m2) /\
  tpool_full (fst m1) = tpool_full (fst m2).
Proof.
  apply (malloc_same_blocks x86_64 sample_pool 17 32).
  - exact sample_pool_wf.
  - reflexivity.
  - vm_compute. split; [reflexivity | discriminate].
  - vm_compute. split; [reflexivity | discriminate].
  - reflexivity.
Defined.

Lemma exit_kills_handle_witness :
  let e := tb_tpool_exit x86_64 sample_pool_33 in
  tpool_magic e = 0 /\ tpool_maxn e = 0 /\ tpool_full e = 0 /\
  tpool_head e = TB_NULL /\ tpool_body e = TB_NULL /\
  tpool_data e = TB_NULL /\
  head_words e = replicate (length (head_words sample_pool_33)) 0 /\
  body_words e = replicate (length (body_words sample_pool_33)) 0 /\
  data_bytes e = replicate (length (data_bytes sample_pool_33)) 0 /\
  (forall size, tb_tpool_malloc x86_64 e size = (e, TB_NULL)) /\
  tb_tpool_clear x86_64 e = e /\
  tb_tpool_exit x86_64 e = e.
Proof.
  apply (exit_kills_handle x86_64 sample_pool_33), sample_pool_33_wf.
Defined.

Lemma clear_restores_init_witness :
  tb_tpool_clear x86_64
    (fst (run x86_64 [Malloc 528; Free 4192; Malloc 16; Clear; Malloc 1024]
              (sample_pool, [])))
  = sample_pool.
Proof.
  apply (clear_restores_init x86_64 4096 4096 16 sample_pool).
  - lia.
  - vm_compute. reflexivity.
  - exact sample_pool_init.
Defined.

Lemma malloc_after_clear_witness :
  let m := tb_tpool_malloc x86_64 (tb_tpool_clear x86_64 sample_pool_full)
                           100 in
  snd m = tpool_data sample_pool_full /\
  body_words (fst m) !!! 0%nat = Z.ones (blocks_needed sample_pool_full 100) /\
  head_words (fst m) !!! 0%nat = 1 /\
  tpool_full (fst m) = 0.
Proof.
  apply (malloc_after_clear x86_64 sample_pool_full 100).
  - exact sample_pool_full_wf.
  - vm_compute. split; [reflexivity | discriminate].
  - left. vm_compute. reflexivity.
Defined.

Lemma malloc_aligned_witness :
  let r := snd (tb_tpool_malloc x86_64
                  (fst (run x86_64 [Malloc 528; Malloc 16] (sample_pool, [])))
                  100) in
  r mod tpool_align sample_pool = 0 /\
  (r - tpool_data sample_pool) mod tpool_step sample_pool = 0.
Proof.
  apply (malloc_aligned x86_64 4096 4096 16 sample_pool
                        [Malloc 528; Malloc 16] 100).
  - lia.
  - vm_compute. reflexivity.
  - exact sample_pool_init.
  - vm_compute. discriminate.
Defined.

Lemma init_header_witness :
  TB_CPU_BITBYTE x86_64 <= tpool_align sample_pool <= 64 /\
  tpool_step sample_pool = Z.max (tpool_align sample_pool) 16 /\
  4096 <= init_base x86_64 4096 16 /\
  init_base x86_64 4096 16 mod tpool_align sample_pool = 0 /\
  init_base x86_64 4096 16 + sizeof_tpool x86_64 <= tpool_head sample_pool /\
  sizeof_tpool x86_64
  + tpool_maxn sample_pool
    * (2 * sizeof_size_t x86_64
       + TB_TPOOL_BLOCK_MAXN x86_64 * tpool_step sample_pool)
  <= 4096.
Proof.
  apply (init_header x86_64 4096 4096 16 sample_pool), sample_pool_init.
Defined.

Lemma init_rejects_witness : tb_tpool_init x86_64 4096 4096 128 = None.
Proof.
  apply (init_rejects x86_64 4096 4096 128). right. right. left. lia.
Defined.

Lemma diagnostics_invariant_witness :
  let i :=
    tpool_info
      (fst (run ppc64_debug
                [Malloc 100; Malloc 16; Clear; Malloc 528; Malloc 528]
                (sample_pool_debug, []))) in
  info_used i = info_real i /\
  info_used i <= info_peak i /\
  (TB_DEBUG ppc64_debug = false -> i = info_zero).
Proof.
  apply (diagnostics_invariant ppc64_debug 4096 4096 16 sample_pool_debug).
  - lia.
  - vm_compute. reflexivity.
  - vm_compute. reflexivity.
Defined.

Lemma malloc_null_iff_all_full_witness :
  let m := tb_tpool_malloc x86_64 sample_pool_33 100 in
  (snd m = TB_NULL <->
   forall j, (j < length (body_words sample_pool_33))%nat ->
             body_words sample_pool_33 !!! j
             = 2 ^ TB_TPOOL_BLOCK_MAXN x86_64 - 1) /\
  (snd m = TB_NULL ->
   tpool_full (fst m) = 1 /\
   head_words (fst m) = head_words sample_pool_33 /\
   body_words (fst m) = body_words sample_pool_33 /\
   data_bytes (fst m) = data_bytes sample_pool_33).
Proof.
  apply (malloc_null_iff_all_full x86_64 sample_pool_33 100).
  - exact sample_pool_33_wf.
  - reflexivity.
  - vm_compute. split; [reflexivity | discriminate].
Defined.

Lemma live_disjoint_when_served_witness :
  let st := run x86_64 [Malloc 16; Malloc 32; Free 4192; Malloc 48]
                (sample_pool, []) in
  live_disjoint (fst st) (snd st) = true /\
  live_marked x86_64 (fst st) (snd st).
Proof.
  apply (live_disjoint_when_served x86_64 4096 4096 16 sample_pool).
  - lia.
  - vm_compute. reflexivity.
  - exact sample_pool_init.
  - cbn [run_served].
    split; [| split; [| split; [exact I | split; [| exact I]]]].
    + apply (served_packed x86_64 _ 16 0); try lia;
        vm_compute; (reflexivity || discriminate).
    + apply (served_packed x86_64 _ 32 1); try lia;
        vm_compute; (reflexivity || discriminate).
    + apply (served_packed x86_64 _ 48 3); try lia;
        vm_compute; (reflexivity || discriminate).
Defined.

